(** * vsnode: biometric matching pipeline

    A shallow embedding of the two comparison endpoints of
    [combined-server.js]: [POST /compare-signatures] (the same computation
    is in [server.js]) and [POST /compare-faces], together with the helper
    [fetchAccountData].

    Conventions of the embedding.
    - A JavaScript number is given by its exact value, a rational ([Q]),
      plus the two infinities and NaN where the code can produce them.
      The subtraction [1 - distance] of the face comparison yields the
      nearest double ([double]); the arithmetic of the signature
      comparison is exact.
    - Everything that lives outside the repository (the HTTP client, the
      image library, the canvas loader, the face detector and its distance
      function) is a variable of a section: the handlers are functions of
      these capabilities.
    - An awaited promise that rejects and a [throw] are the [Throw] case of
      the [result] monad; the handler's [catch] turns it into a response.
    - Logging is not modelled. *)

From Stdlib Require Import ZArith NArith QArith Qabs Qround Qminmax Qpower.
From Stdlib Require Import Bool List String Ascii Lia Lqa Permutation.
From Stdlib.Strings Require Import Byte.
From Stdlib Require Import DecimalString DecimalPos DecimalN.
Import ListNotations.

Local Open Scope Q_scope.

(* ------------------------------------------------------------------ *)
(** ** Exceptions and the error monad *)

(** What a [catch (error)] block can see.  [JsError msg] is
    [new Error(msg)]; [TypeError] stands for the engine's own type errors
    (their message text is engine specific); [Rejected msg] is a rejection
    coming from one of the external libraries. *)
Inductive exn : Type :=
| JsError (message : string)
| TypeError
| Rejected (message : string).

Inductive result (A : Type) : Type :=
| Ok (a : A)
| Throw (e : exn).
Arguments Ok {A} a.
Arguments Throw {A} e.

Definition bind {A B : Type} (m : result A) (k : A -> result B) : result B :=
  match m with
  | Ok a => k a
  | Throw e => Throw e
  end.

Declare Scope js_scope.
Delimit Scope js_scope with js.
Notation "x <- m ;; k" := (bind m (fun x => k))
  (at level 61, m at next level, right associativity) : js_scope.
Notation "' pat <- m ;; k" := (bind m (fun x => match x with pat => k end))
  (at level 61, pat pattern, m at next level, right associativity) : js_scope.

(* ------------------------------------------------------------------ *)
(** ** Strings *)

(** [s.split(sep)] for a one-character separator. *)
Fixpoint split (sep : ascii) (s : string) : list string :=
  match s with
  | EmptyString => [EmptyString]
  | String c rest =>
      match split sep rest with
      | seg :: segs =>
          if Ascii.eqb c sep then EmptyString :: seg :: segs
          else String c seg :: segs
      | [] => [String c EmptyString]
      end
  end.

(* ------------------------------------------------------------------ *)
(** ** Numbers *)

Inductive number : Type :=
| Num (q : Q)
| Inf (negative : bool)
| NaN.

Definition Qltb (x y : Q) : bool := negb (Qle_bool y x).

Definition number_sub (a b : number) : number :=
  match a, b with
  | NaN, _ | _, NaN => NaN
  | Num x, Num y => Num (x - y)
  | Num _, Inf s => Inf (negb s)
  | Inf s, Num _ => Inf s
  | Inf s, Inf t => if Bool.eqb s t then NaN else Inf s
  end.

Definition number_add (a b : number) : number :=
  match a, b with
  | NaN, _ | _, NaN => NaN
  | Num x, Num y => Num (x + y)
  | Num _, Inf s => Inf s
  | Inf s, Num _ => Inf s
  | Inf s, Inf t => if Bool.eqb s t then Inf s else NaN
  end.

Definition number_abs (a : number) : number :=
  match a with
  | Num x => Num (Qabs x)
  | Inf _ => Inf false
  | NaN => NaN
  end.

(** [a / b].  The sign of a zero is not represented, so a non-zero finite
    number divided by zero takes the sign of the dividend. *)
Definition number_div (a b : number) : number :=
  match a, b with
  | NaN, _ | _, NaN => NaN
  | Num x, Num y =>
      if Qeq_bool y 0
      then if Qeq_bool x 0 then NaN else Inf (Qltb x 0)
      else Num (x / y)
  | Num _, Inf _ => Num 0
  | Inf s, Num y => Inf (xorb s (Qltb y 0))
  | Inf _, Inf _ => NaN
  end.

(** *** Doubles

    A finite double is [m * 2^e] or its opposite, for integers [m < 2^53]
    and [e >= -1074].  An arithmetic operation on doubles yields the
    double nearest to the exact result, the one with the even [m] when
    two are equally near. *)

(** [floor (log2 x)] for a positive [x]. *)
Definition Qlog2 (x : Q) : Z :=
  let k := (Z.log2 (Qnum x) - Z.log2 (Zpos (Qden x)))%Z in
  if Qle_bool (2 ^ k) x then k else (k - 1)%Z.

(** The integer nearest to [y], the even one when two are equally near. *)
Definition nearestEven (y : Q) : Z :=
  let f := Qfloor y in
  match Qcompare (y - inject_Z f) (1 # 2) with
  | Lt => f
  | Gt => (f + 1)%Z
  | Eq => if Z.even f then f else (f + 1)%Z
  end.

(** The multiple of [2^e] nearest to [a], the even multiple when two are
    equally near. *)
Definition roundToMultiple (e : Z) (a : Q) : Q :=
  inject_Z (nearestEven (a / 2 ^ e)) * 2 ^ e.

(** The exponent of the last of the 53 bits of a double between
    [2^(Qlog2 a)] and [2^(Qlog2 a + 1)]; it is never below -1074. *)
Definition lastBit (a : Q) : Z := Z.max (Qlog2 a - 52) (-1074).

(** The double nearest to [x].  Numbers beyond the largest double, which
    round to an infinity, do not arise from [1 - distance] when
    [distance] is a double. *)
Definition double (x : Q) : Q :=
  let a := Qabs x in
  let r := roundToMultiple (lastBit a) a in
  Qred (if Qltb x 0 then - r else r).

(** *** [Number.prototype.toFixed(4)] *)

(** The integer [n] for which [n / 10^4 - x] is as close to zero as
    possible, the larger one when there are two ([x] is non-negative
    here). *)
Definition toFixed_n (x : Q) : Z := Qfloor (x * 10000 + (1 # 2)).

Fixpoint zeros (k : nat) : string :=
  match k with
  | O => EmptyString
  | S k' => String "0" (zeros k')
  end.

(** The digits of [n], left-padded with zeros to at least five characters
    and with the point before the last four. *)
Definition fixed_digits (n : Z) : string :=
  let m := NilZero.string_of_uint (N.to_uint (Z.to_N n)) in
  let k := String.length m in
  let m := if (k <=? 4)%nat then (zeros (5 - k) ++ m)%string else m in
  let k := String.length m in
  (substring 0 (k - 4) m ++ "." ++ substring (k - 4) 4 m)%string.

Section ToFixed.
(** [Number::toString], used by [toFixed] for magnitudes of at least
    10^21; it belongs to the language runtime. *)
Variable Number_toString : Q -> string.

Definition toFixed4 (x : Q) : string :=
  let s := if Qltb x 0 then "-"%string else EmptyString in
  let x := if Qltb x 0 then - x else x in
  if Qle_bool (10 ^ 21) x
  then (s ++ Number_toString x)%string
  else (s ++ fixed_digits (toFixed_n x))%string.

Definition number_toFixed4 (a : number) : string :=
  match a with
  | NaN => "NaN"%string
  | Inf false => "Infinity"%string
  | Inf true => "-Infinity"%string
  | Num x => toFixed4 x
  end.
End ToFixed.

(** *** [parseFloat] *)

Definition digit (c : ascii) : option N :=
  let n := N_of_ascii c in
  if ((48 <=? n) && (n <=? 57))%N then Some (n - 48)%N else None.

(** The number a string of decimal digits denotes, after the digits [acc]
    already read. *)
Fixpoint digits (s : string) (acc : N) : option N :=
  match s with
  | EmptyString => Some acc
  | String c rest =>
      match digit c with
      | Some d => digits rest (10 * acc + d)
      | None => None
      end
  end.

(** [parseFloat] on the strings [toFixed] writes below 10^21: an optional
    minus sign, digits, a point, digits. *)
Definition parseFloat_fixed (s : string) : option Q :=
  let negative := match s with String "-" _ => true | _ => false end in
  let body := match s with String "-" rest => rest | _ => s end in
  match split "." body with
  | [whole; fraction] =>
      match digits whole 0, digits fraction 0 with
      | Some w, Some f =>
          let v := inject_Z (Z.of_N w)
                   + inject_Z (Z.of_N f)
                     / inject_Z (Z.of_N (10 ^ N.of_nat (String.length fraction))) in
          Some (if negative then - v else v)
      | _, _ => None
      end
  | _ => None
  end.

(** [parseFloat(x.toFixed(4))] as a number.  Below 10^21 that is
    [± n / 10^4], which is what [parseFloat_fixed] reads from the string
    of [toFixed4] (lemma [parseFloat_toFixed4]); from 10^21 on the string
    is the number's own shortest representation and reads back as [x].
    The result is the number the JSON response shows, [n / 10^4] itself.
    It is kept in lowest terms, so equal numbers are equal terms. *)
Definition round4 (x : Q) : Q :=
  if Qle_bool (10 ^ 21) (Qabs x) then Qred x
  else if Qltb x 0 then Qred (- (toFixed_n (- x) # 10000))
  else Qred (toFixed_n x # 10000).

(* ------------------------------------------------------------------ *)
(** ** Signature comparison: [POST /compare-signatures] *)

(** The object [sharp(...).raw().toBuffer({ resolveWithObject: true })]
    resolves to: the raw pixel buffer and its [info]. *)
Record rawImage : Type := {
  data : list byte;
  info_width : N;
  info_height : N
}.

(** [buf[i]] for a [Buffer]: the byte, or [undefined], which arithmetic
    turns into NaN. *)
Definition buffer_get (buf : list byte) (i : nat) : number :=
  match nth_error buf i with
  | Some b => Num (inject_Z (Z.of_N (Byte.to_N b)))
  | None => NaN
  end.

(** [for (let i = ...; i < pixelCount; i++) difference += Math.abs(...)],
    with [k] iterations left. *)
Fixpoint difference_loop (data1 data2 : list byte) (k i : nat)
    (difference : number) : number :=
  match k with
  | O => difference
  | S k' =>
      difference_loop data1 data2 k' (S i)
        (number_add difference
           (number_abs (number_sub (buffer_get data1 i) (buffer_get data2 i))))
  end.

Inductive sigResponse : Type :=
| SigOk (similarity : string)
| SigError (status : Z) (error : string) (details : option exn).

Section Signatures.
Variable Number_toString : Q -> string.
Variable buffer : Type.
(** [sharp(buf).resize(300, 150).grayscale().raw().toBuffer(...)] *)
Variable sharpSignature : buffer -> result rawImage.

Definition similarity_of (img1 img2 : rawImage) : number :=
  let pixelCount := (info_width img1 * info_height img1)%N in
  let difference :=
    difference_loop (data img1) (data img2) (N.to_nat pixelCount) 0
      (Num 0) in
  let maxDifference := Num (inject_Z (Z.of_N pixelCount) * 255) in
  number_sub (Num 1) (number_div difference maxDifference).

(** The handler from the point where both images are decoded. *)
Definition compareRaw (img1 img2 : rawImage) : sigResponse :=
  if negb (info_width img1 =? info_width img2)%N
     || negb (info_height img1 =? info_height img2)%N
  then SigError 400 "Images must have the same dimensions after resizing"
         None
  else SigOk (number_toFixed4 Number_toString (similarity_of img1 img2)).


End Signatures.



(* ------------------------------------------------------------------ *)
(** ** Values of the account store's JSON response *)

Local Unset Elimination Schemes.
Inductive value : Type :=
| Undefined
| Null
| VBool (b : bool)
| VNum (q : Q)
| VStr (s : string)
| VArr (elements : list value)
| VObj (fields : list (string * value)).
Local Set Elimination Schemes.

(** [!v] is [negb (truthy v)]. *)
Definition truthy (v : value) : bool :=
  match v with
  | Undefined | Null => false
  | VBool b => b
  | VNum q => negb (Qeq_bool q 0)
  | VStr s => negb (String.eqb s EmptyString)
  | VArr _ | VObj _ => true
  end.

(** [Array.isArray(v)] *)
Definition isArray (v : value) : bool :=
  match v with
  | VArr _ => true
  | _ => false
  end.

(** The elements of an array. *)
Definition elements (v : value) : list value :=
  match v with
  | VArr xs => xs
  | _ => []
  end.

Fixpoint lookup (k : string) (fields : list (string * value)) : option value :=
  match fields with
  | [] => None
  | (k', v) :: rest => if String.eqb k k' then Some v else lookup k rest
  end.

(** [v.k] for the property names the server reads ([approved], [photo],
    [signature]): a type error on [undefined] and [null], the field of an
    object, and [undefined] on every other parsed JSON value. *)
Definition get (v : value) (k : string) : result value :=
  match v with
  | Undefined | Null => Throw TypeError
  | VObj fields =>
      match lookup k fields with
      | Some x => Ok x
      | None => Ok Undefined
      end
  | _ => Ok Undefined
  end.

(* ------------------------------------------------------------------ *)
(** ** Face comparison: [fetchAccountData] and [POST /compare-faces] *)

(** One element of [faceResults]. *)
Record faceResult : Type := {
  faceUrl : string;
  isMatch : bool;
  similarity : Q
}.

Inductive response : Type :=
| Outcome (isMatch : bool) (bestSimilarity : Q) (faces : list faceResult)
| Failure (status : Z) (error : string) (details : option exn).

(** The variables the candidate loop updates: [faceResults],
    [bestSimilarity] and the handler's [isMatch], here [overallMatch]. *)
Record loopState : Type := {
  faceResults : list faceResult;
  bestSimilarity : Q;
  overallMatch : bool
}.

Definition initialState : loopState :=
  {| faceResults := []; bestSimilarity := 0; overallMatch := false |}.

(** A multipart request, for which the upload middleware has set
    [req.files]: [req.body.accountNumber] and the buffer of
    [req.files.livePhoto], each absent or present. *)
Record request (buffer : Type) : Type := {
  accountNumber : option string;
  livePhoto : option buffer
}.
Arguments accountNumber {buffer} r.
Arguments livePhoto {buffer} r.

(** A request as it reaches the handler.  [files] is [req.files]: the
    upload middleware leaves it [undefined] when the request is not
    multipart, and otherwise sets it to an object that has the buffer of
    [livePhoto] when that field was uploaded. *)
Record httpRequest (buffer : Type) : Type := {
  body_accountNumber : option string;
  files : option (option buffer)
}.
Arguments body_accountNumber {buffer} _.
Arguments files {buffer} _.

(** What the handler takes from outside the repository. *)
Record capabilities (buffer image descriptor : Type) : Type := {
  (** [axios.request(config)] for the account's URL: [response.data], or
      a rejection. *)
  axios_request : string -> result value;
  (** [Buffer.from(text, 'base64')] *)
  Buffer_from_base64 : string -> buffer;
  (** [sharp(buf).resize(800, 800, ...).normalise().jpeg(...).toBuffer()] *)
  sharpFace : buffer -> result buffer;
  (** [canvas.loadImage] *)
  loadImage : buffer -> result image;
  (** [faceapi.detectSingleFace(...).withFaceLandmarks().withFaceDescriptor()]:
      the descriptor of the detection, or [undefined]. *)
  detectSingleFace : image -> result (option descriptor);
  (** [faceapi.euclideanDistance]: a double, given by its value *)
  euclideanDistance : descriptor -> descriptor -> Q
}.
Arguments axios_request {buffer image descriptor} c _.
Arguments Buffer_from_base64 {buffer image descriptor} c _.
Arguments sharpFace {buffer image descriptor} c _.
Arguments loadImage {buffer image descriptor} c _.
Arguments detectSingleFace {buffer image descriptor} c _.
Arguments euclideanDistance {buffer image descriptor} c _ _.

Definition missingApproved : string :=
  "Invalid response format from external API: approved array is missing or empty".
Definition missingField : string :=
  "Invalid response format from external API: photo or signature missing in approved item".

Section Faces.
Context {buffer image descriptor : Type}.
Variable cap : capabilities buffer image descriptor.

(** [for (const item of data.approved) { if (!item.photo || !item.signature) throw ... }] *)
Fixpoint checkItems (items : list value) : result unit :=
  match items with
  | [] => Ok tt
  | item :: rest =>
      (photo <- get item "photo" ;;
       if negb (truthy photo) then Throw (JsError missingField)
       else
         signature <- get item "signature" ;;
         if negb (truthy signature) then Throw (JsError missingField)
         else checkItems rest)%js
  end.

Definition fetchAccountData (accountNumber : string) : result (list value) :=
  (data <- axios_request cap accountNumber ;;
   approved <- get data "approved" ;;
   if negb (truthy approved) || negb (isArray approved)
      || (List.length (elements approved) =? 0)%nat
   then Throw (JsError missingApproved)
   else
     _ <- checkItems (elements approved) ;;
     Ok (elements approved))%js.

(** The image pipeline applied to the live photo and to every stored
    photo: resize and normalise, load, detect. *)
Definition detectFace (photo : buffer) : result (option descriptor) :=
  (resized <- sharpFace cap photo ;;
   img <- loadImage cap resized ;;
   detectSingleFace cap img)%js.

(** One turn of [for (const item of accountData)]. *)
Definition processItem (liveDescriptor : descriptor) (item : value)
    (st : loopState) : result loopState :=
  (photo <- get item "photo" ;;
   match photo with
   | VStr faceUrl =>
       match nth_error (split "," faceUrl) 1 with
       | None => Throw TypeError
       | Some encoded =>
           storedDetection <- detectFace (Buffer_from_base64 cap encoded) ;;
           match storedDetection with
           | None =>
               Ok {| faceResults :=
                       faceResults st
                       ++ [{| faceUrl := faceUrl; isMatch := false;
                              similarity := 0 |}];
                     bestSimilarity := bestSimilarity st;
                     overallMatch := overallMatch st |}
           | Some storedDescriptor =>
               let distance :=
                 euclideanDistance cap liveDescriptor storedDescriptor in
               let similarity := double (1 - distance) in
               let match_ := Qltb distance (1 # 2) in
               Ok {| faceResults :=
                       faceResults st
                       ++ [{| faceUrl := faceUrl; isMatch := match_;
                              similarity := round4 similarity |}];
                     bestSimilarity :=
                       if Qltb (bestSimilarity st) similarity then similarity
                       else bestSimilarity st;
                     overallMatch := if match_ then true else overallMatch st |}
           end
       end
   | _ => Throw TypeError
   end)%js.

Fixpoint processItems (liveDescriptor : descriptor) (items : list value)
    (st : loopState) : result loopState :=
  match items with
  | [] => Ok st
  | item :: rest =>
      (st' <- processItem liveDescriptor item st ;;
       processItems liveDescriptor rest st')%js
  end.

Definition noLiveFace : response :=
  Failure 400 "No face detected in the live photo" None.

(** The body of the handler's [try]. *)
Definition compareFacesBody (accountNumber : string) (livePhotoBuffer : buffer)
    : result response :=
  (accountData <- fetchAccountData accountNumber ;;
   liveDetection <- detectFace livePhotoBuffer ;;
   match liveDetection with
   | None => Ok noLiveFace
   | Some liveDescriptor =>
       st <- processItems liveDescriptor accountData initialState ;;
       Ok (Outcome (overallMatch st) (round4 (bestSimilarity st)) (faceResults st))
   end)%js.

(** The handler on a multipart request, from line 265 on. *)
Definition compareFaces (req : request buffer) : response :=
  match accountNumber req, livePhoto req with
  | Some account, Some livePhotoBuffer =>
      if String.eqb account EmptyString
      then Failure 400 "accountNumber and livePhoto are required" None
      else
        match compareFacesBody account livePhotoBuffer with
        | Ok r => r
        | Throw e => Failure 500 "Failed to compare faces" (Some e)
        end
  | _, _ => Failure 400 "accountNumber and livePhoto are required" None
  end.

(** The whole handler.  Line 263 reads [req.files.livePhoto] before the
    [try]: when [req.files] is [undefined] that is a type error which the
    handler's [catch] does not see, so the handler throws and sends no
    response of its own. *)
Definition postCompareFaces (req : httpRequest buffer) : result response :=
  match files req with
  | None => Throw TypeError
  | Some photo =>
      Ok (compareFaces {| accountNumber := body_accountNumber req;
                          livePhoto := photo |})
  end.

End Faces.

(* ------------------------------------------------------------------ *)
(** ** Vocabulary for the statements *)

Definition pixel (b : byte) : Z := Z.of_N (Byte.to_N b).

(** The sum of the specification's formula: the absolute pixel
    differences added up, pixel by pixel. *)
Fixpoint sum_abs_diff (p1 p2 : list byte) : Z :=
  match p1, p2 with
  | a :: r1, b :: r2 => Z.abs (pixel a - pixel b) + sum_abs_diff r1 r2
  | _, _ => 0
  end.

(** [n / 10^4] for the [n] of [toFixed]. *)
Definition nearest (t : Q) : Q := inject_Z (toFixed_n t) / 10000.

(** The larger of 0 and the numbers of a list. *)
Definition max0 (l : list Q) : Q := fold_right Qmax 0 l.

(** The largest number of a list that has one. *)
Definition maxOf (l : list Q) : option Q :=
  match l with
  | [] => None
  | x :: rest => Some (fold_right Qmax x rest)
  end.

(** An entry of the approved list has no field [k]. *)
Definition lacks (item : value) (k : string) : Prop :=
  match item with
  | VObj fields => lookup k fields = None
  | _ => True
  end.

(** The response is a request-level failure. *)
Definition isFailure (r : response) : Prop :=
  match r with
  | Failure _ _ _ => True
  | Outcome _ _ _ => False
  end.

Section FaceViews.
Context {buffer image descriptor : Type}.
Variable cap : capabilities buffer image descriptor.

(** What the loop learns about one stored item before it compares: the
    photo's URL and the descriptor of the face found in it, if any. *)
Definition candidate (item : value) : result (string * option descriptor) :=
  (photo <- get item "photo" ;;
   match photo with
   | VStr faceUrl =>
       match nth_error (split "," faceUrl) 1 with
       | None => Throw TypeError
       | Some encoded =>
           storedDetection <- detectFace cap (Buffer_from_base64 cap encoded) ;;
           Ok (faceUrl, storedDetection)
       end
   | _ => Throw TypeError
   end)%js.

Fixpoint candidates (items : list value)
    : result (list (string * option descriptor)) :=
  match items with
  | [] => Ok []
  | item :: rest =>
      (c <- candidate item ;; cs <- candidates rest ;; Ok (c :: cs))%js
  end.

(** The Match Result of a candidate. *)
Definition matchResult (live : descriptor) (c : string * option descriptor)
    : faceResult :=
  match snd c with
  | None => {| faceUrl := fst c; isMatch := false; similarity := 0 |}
  | Some d =>
      {| faceUrl := fst c;
         isMatch := Qltb (euclideanDistance cap live d) (1 # 2);
         similarity := round4 (double (1 - euclideanDistance cap live d)) |}
  end.

(** The similarity the loop computes for a candidate, before it is
    rounded for the Match Result; a candidate without a face counts 0. *)
Definition contribution (live : descriptor) (c : string * option descriptor)
    : Q :=
  match snd c with
  | None => 0
  | Some d => double (1 - euclideanDistance cap live d)
  end.

(** The loop variables after a candidate. *)
Definition record (live : descriptor) (st : loopState)
    (c : string * option descriptor) : loopState :=
  match snd c with
  | None =>
      {| faceResults := faceResults st ++ [matchResult live c];
         bestSimilarity := bestSimilarity st;
         overallMatch := overallMatch st |}
  | Some d =>
      let similarity := double (1 - euclideanDistance cap live d) in
      {| faceResults := faceResults st ++ [matchResult live c];
         bestSimilarity :=
           if Qltb (bestSimilarity st) similarity then similarity
           else bestSimilarity st;
         overallMatch := if Qltb (euclideanDistance cap live d) (1 # 2)
                    then true else overallMatch st |}
  end.

End FaceViews.

(* ------------------------------------------------------------------ *)
(** ** A small world to run the handler in

    Buffers and images are named by their text, a face descriptor is one
    number and the distance of two descriptors is the absolute value of
    their difference (the Euclidean distance in one dimension), as a
    double.  The image library rejects the buffer named [corrupt]; the
    detector finds the faces listed in a table. *)

Fixpoint faceOf (img : string) (faces : list (string * Q)) : option Q :=
  match faces with
  | [] => None
  | (name, d) :: rest => if String.eqb img name then Some d else faceOf img rest
  end.

Definition unsupportedFormat : exn :=
  Rejected "Input buffer contains unsupported image format".

Definition world (approved : value) (faces : list (string * Q))
    : capabilities string string Q :=
  {| axios_request := fun _ => Ok (VObj [("approved"%string, approved)]);
     Buffer_from_base64 := fun text => text;
     sharpFace := fun buf =>
       if String.eqb buf "corrupt" then Throw unsupportedFormat else Ok buf;
     loadImage := fun buf => Ok buf;
     detectSingleFace := fun img => Ok (faceOf img faces);
     euclideanDistance := fun a b => double (Qabs (a - b)) |}.

Definition entry (photo : string) : value :=
  VObj [("photo"%string, VStr photo);
        ("signature"%string, VStr "data:image/png;base64,sig")].

Definition liveRequest : request string :=
  {| accountNumber := Some "0012345"%string; livePhoto := Some "live"%string |}.

Definition nearUrl : string := "data:image/jpeg;base64,near".
Definition farUrl : string := "data:image/jpeg;base64,far".
Definition blankUrl : string := "data:image/jpeg;base64,blank".
Definition corruptUrl : string := "data:image/jpeg;base64,corrupt".

(** The live photo shows the face 0 in all worlds but [facelessWorld]
    and [emptyWorld]. *)
Definition mixedWorld : capabilities string string Q :=
  world (VArr [entry blankUrl; entry nearUrl])
    [("live"%string, 0); ("near"%string, 1 # 5)].
Definition farWorld : capabilities string string Q :=
  world (VArr [entry farUrl]) [("live"%string, 0); ("far"%string, 3 # 2)].
Definition thirdWorld : capabilities string string Q :=
  world (VArr [entry nearUrl]) [("live"%string, 0); ("near"%string, 1 # 3)].
Definition corruptWorld : capabilities string string Q :=
  world (VArr [entry corruptUrl; entry nearUrl])
    [("live"%string, 0); ("near"%string, 1 # 5)].
Definition blankWorld : capabilities string string Q :=
  world (VArr [entry blankUrl]) [("live"%string, 0)].
Definition unitWorld : capabilities string string Q :=
  world (VArr [entry blankUrl]) [("live"%string, 0); ("blank"%string, 1)].
Definition facelessWorld : capabilities string string Q :=
  world (VArr [entry nearUrl]) [("near"%string, 1 # 5)].
Definition emptyWorld : capabilities string string Q :=
  world (VArr []) [].
Definition unsignedWorld : capabilities string string Q :=
  world (VArr [entry blankUrl; VObj [("photo"%string, VStr nearUrl)]])
    [("live"%string, 0); ("near"%string, 1 # 5)].

(** Raw images of one grey level. *)
Definition const_image (w h : N) (b : byte) : rawImage :=
  {| data := repeat b (N.to_nat (w * h)); info_width := w; info_height := h |}.

Definition smallImage (b : byte) : rawImage := const_image 2 2 b.

(* ------------------------------------------------------------------ *)
(** ** More string operations

    A string is a sequence of 8-bit code units; the Unicode spaces above
    U+00FF are outside the model. *)

(** [haystack.includes(needle)] *)
Fixpoint includes (needle haystack : string) : bool :=
  prefix needle haystack
  || match haystack with
     | EmptyString => false
     | String _ rest => includes needle rest
     end.

(** [s.endsWith(suffix)] *)
Definition endsWith (s suffix : string) : bool :=
  (String.length suffix <=? String.length s)%nat
  && String.eqb
       (substring (String.length s - String.length suffix)
          (String.length suffix) s)
       suffix.

(** The code units [trim] removes: tab, line feed, vertical tab, form
    feed, carriage return, space and no-break space. *)
Definition isWhitespace (c : ascii) : bool :=
  let n := nat_of_ascii c in
  ((9 <=? n) && (n <=? 13) || (n =? 32) || (n =? 160))%nat.

Fixpoint trimStart (s : string) : string :=
  match s with
  | EmptyString => EmptyString
  | String c rest => if isWhitespace c then trimStart rest else s
  end.

Fixpoint trimEnd (s : string) : string :=
  match s with
  | EmptyString => EmptyString
  | String c rest =>
      match trimEnd rest with
      | EmptyString => if isWhitespace c then EmptyString else String c EmptyString
      | kept => String c kept
      end
  end.

(** [s.trim()] *)
Definition trim (s : string) : string := trimEnd (trimStart s).

(* ------------------------------------------------------------------ *)
(** ** Middleware: the CORS origin check and the upload file filter *)

(** The [origin] function given to [cors]: [callback(null, true)] is
    [Ok true], [callback(new Error(...))] is [Throw]. *)
Definition corsOrigin (origin : option string) : result bool :=
  match origin with
  | None => Ok true
  | Some o =>
      if String.eqb o EmptyString then Ok true
      else if prefix "http://localhost" o then Ok true
      else Throw (JsError "Not allowed by CORS")
  end.

(** [fileFilter] of [uploadSignatures] and [uploadFaces]; the regular
    expression [/jpeg|jpg|png/] tests for one of three substrings. *)
Definition fileFilter (mimetype : string) : result bool :=
  if includes "jpeg" mimetype || includes "jpg" mimetype
     || includes "png" mimetype
  then Ok true
  else Throw (JsError "File must be an image (jpeg/jpg/png)").

(* ------------------------------------------------------------------ *)
(** ** Cheque extraction: [POST /upload-cheque] *)

(** The clean-up of the model's answer: an opening [```json], a closing
    [```], then [trim]. *)
Definition stripFences (extractedText : string) : string :=
  let extractedText :=
    if prefix "```json" extractedText
    then substring 7 (String.length extractedText - 7) extractedText
    else extractedText in
  let extractedText :=
    if endsWith extractedText "```"
    then substring 0 (String.length extractedText - 3) extractedText
    else extractedText in
  trim extractedText.

Inductive chequeResponse : Type :=
| ChequeOk (extractedData : value)
| ChequeError (status : Z) (error : string) (rawResponse : option string)
    (details : option string).

(** What the local model's client throws: an error object with an
    optional [message] and an optional [statusCode]. *)
Record aiError : Type := {
  ai_message : option string;
  ai_statusCode : option Z
}.

Section Cheque.
Variable buffer : Type.
(** [JSON.parse] *)
Variable JSON_parse : string -> option value.
(** [model.generateContent([prompt, imagePart])] up to [response.text()],
    for the uploaded buffer and its MIME type. *)
Variable generateContent : buffer -> string -> result string.
(** [model.respond(chat, ...)] of the local model, up to [result.content]. *)
Variable respond : buffer -> aiError + string.

(** The handler of [combined-server.js]; [req.file] is the uploaded
    buffer and its MIME type when the field is present. *)
Definition uploadCheque (file : option (buffer * string)) : chequeResponse :=
  match file with
  | None => ChequeError 400 "No image file uploaded." None None
  | Some (imageBuffer, mimeType) =>
      match generateContent imageBuffer mimeType with
      | Throw _ => ChequeError 500 "Failed to process image with AI" None None
      | Ok text =>
          let extractedText := stripFences text in
          match JSON_parse extractedText with
          | Some parsedData => ChequeOk parsedData
          | None =>
              ChequeError 500 "AI output not JSON" (Some extractedText) None
          end
      end
  end.

(** [error.message && error.message.includes('vision')
     || error.statusCode === 400 || error.statusCode === 500] *)
Definition likelyNoVision (error : aiError) : bool :=
  match ai_message error with
  | Some m => negb (String.eqb m EmptyString) && includes "vision" m
  | None => false
  end
  || match ai_statusCode error with
     | Some code => (code =? 400)%Z || (code =? 500)%Z
     | None => false
     end.

(** The handler of the local-model server, which trims the answer before
    it looks for the fences. *)
Definition uploadChequeLocal (file : option (buffer * string))
    : chequeResponse :=
  match file with
  | None => ChequeError 400 "No image file uploaded." None None
  | Some (imageBuffer, _) =>
      match respond imageBuffer with
      | inl error =>
          if likelyNoVision error
          then ChequeError 503
                 "Local AI server error (load a vision model like LLaVA in LM Studio for image processing)"
                 None None
          else ChequeError 500 "Failed to process image with local AI" None
                 (ai_message error)
      | inr content =>
          let extractedText := stripFences (trim content) in
          match JSON_parse extractedText with
          | Some parsedData => ChequeOk parsedData
          | None =>
              ChequeError 500 "AI output not JSON" (Some extractedText) None
          end
      end
  end.
End Cheque.

(* ------------------------------------------------------------------ *)
(** ** Account lookup: [POST /api/accounts/signature] *)

Module Accounts.

(** A row of the query's result; [signature_url] is NULL when the
    account has no signature (the join is a LEFT JOIN). *)
Record row : Type := {
  account_number : string;
  account_holder : string;
  bank_name : string;
  branch_name : string;
  account_type : string;
  required_signatures : Z;
  signature_url : option string
}.

(** The [account] object of the response. *)
Record account : Type := {
  accountNumber : string;
  accountHolder : string;
  bankName : string;
  branchName : string;
  accountType : string;
  requiredSignatures : Z;
  signatures : list string
}.

Inductive response : Type :=
| Found (a : account)
| Error (status : Z) (error : string).

(** [url => url] as a filter: a URL that is neither NULL nor empty. *)
Definition present (url : option string) : bool :=
  match url with
  | Some u => negb (String.eqb u EmptyString)
  | None => false
  end.

(** The strings of a list of URLs without NULL. *)
Fixpoint strings (urls : list (option string)) : list string :=
  match urls with
  | [] => []
  | Some u :: rest => u :: strings rest
  | None :: rest => strings rest
  end.

(** [rows.map(row => row.signature_url).filter(url => url)] *)
Definition signatureUrls (rows : list row) : list string :=
  strings (filter present (map signature_url rows)).

Section Route.
(** [db.query(sql, [accountNumber])]: the rows, or a rejection. *)
Variable db_query : value -> result (list row).

(** The handler; [accountNumber] is [req.body.accountNumber]. *)
Definition signatureRoute (accountNumber : value) : response :=
  if negb (truthy accountNumber) then Error 400 "Account number is required"
  else
    match db_query accountNumber with
    | Throw _ => Error 500 "Internal server error"
    | Ok rows =>
        match rows with
        | [] => Error 404 "Account not found"
        | first :: _ =>
            Found {| accountNumber := account_number first;
                     accountHolder := account_holder first;
                     bankName := bank_name first;
                     branchName := branch_name first;
                     accountType := account_type first;
                     requiredSignatures := required_signatures first;
                     signatures := signatureUrls rows |}
        end
    end.
End Route.

(** *** The tables of [schema.sql] and the route's query *)

Record accountRecord : Type := {
  account_id : Z;
  number : string;
  holder : string;
  bank : string;
  branch : string;
  kind : string;
  required : Z
}.

(** [signature_url] is NOT NULL in the schema. *)
Record signatureRecord : Type := {
  signature_id : Z;
  owner_id : Z;
  url : string
}.

Definition joined (a : accountRecord) (u : option string) : row :=
  {| account_number := number a;
     account_holder := holder a;
     bank_name := bank a;
     branch_name := branch a;
     account_type := kind a;
     required_signatures := required a;
     signature_url := u |}.

(** [SELECT ... FROM accounts a LEFT JOIN signatures s
     ON a.account_id = s.account_id WHERE a.account_number = ?]:
    every account the parameter selects, once per signature of it, or
    once with NULL when it has none.  [selected] is the comparison of
    [account_number] with the parameter, which depends on the column's
    collation. *)
Definition signatureQuery (selected : string -> bool)
    (accounts : list accountRecord) (signatureTable : list signatureRecord)
    : list row :=
  flat_map
    (fun a =>
       if selected (number a) then
         match filter (fun s => (owner_id s =? account_id a)%Z) signatureTable with
         | [] => [joined a None]
         | matching => map (fun s => joined a (Some (url s))) matching
         end
       else [])
    accounts.

End Accounts.

(* ------------------------------------------------------------------ *)
(** ** More vocabulary for the statements *)

(** An entry of the approved list that passes [fetchAccountData]: its
    [photo] and its [signature] are both there and truthy. *)
Definition complete (item : value) : Prop :=
  exists photo signature,
    get item "photo" = Ok photo /\ truthy photo = true
    /\ get item "signature" = Ok signature /\ truthy signature = true.

(** The character does not occur in the string. *)
Definition hasNo (c : ascii) (s : string) : Prop :=
  ~ In c (list_ascii_of_string s).

(** The string consists of characters [trim] removes. *)
Fixpoint allWhitespace (s : string) : bool :=
  match s with
  | EmptyString => true
  | String c rest => isWhitespace c && allWhitespace rest
  end.

(* ------------------------------------------------------------------ *)
(** ** More sample data *)

(** The stored photo shows the live face itself. *)
Definition sameWorld : capabilities string string Q :=
  world (VArr [entry blankUrl; entry nearUrl])
    [("live"%string, 0); ("near"%string, 0)].

(** The stored photo is not a data URL. *)
Definition plainWorld : capabilities string string Q :=
  world (VArr [entry "near"]) [("live"%string, 0); ("near"%string, 1 # 5)].

(** A 2x2 image whose buffer holds three bytes. *)
Definition shortImage : rawImage :=
  {| data := [x0a; x0a; x0a]; info_width := 2; info_height := 2 |}.

Definition noImage : rawImage :=
  {| data := []; info_width := 0; info_height := 150 |}.

(** A parser that knows one JSON text. *)
Definition parseEmptyObject (text : string) : option value :=
  if String.eqb text "{}" then Some (VObj []) else None.

Definition fencedAnswer : string := "```json {} ```".
Definition indentedAnswer : string := " ```json{}```".

Definition sampleAccounts : list Accounts.accountRecord :=
  [ {| Accounts.account_id := 1; Accounts.number := "0600017567560";
       Accounts.holder := "Union Systems Global Limited";
       Accounts.bank := "Societe Generale Ghana";
       Accounts.branch := "Kaneshie Market"; Accounts.kind := "business";
       Accounts.required := 2 |};
    {| Accounts.account_id := 2; Accounts.number := "9040007857211";
       Accounts.holder := "Benjamin Anderson"; Accounts.bank := "Stanbic Bank";
       Accounts.branch := "Ring Road Central"; Accounts.kind := "personal";
       Accounts.required := 1 |} ]%string.

Definition sampleSignatures : list Accounts.signatureRecord :=
  [ {| Accounts.signature_id := 1; Accounts.owner_id := 1;
       Accounts.url := "usgl_sig1" |};
    {| Accounts.signature_id := 2; Accounts.owner_id := 1;
       Accounts.url := "usgl_sig2" |} ]%string.

(** The database answering from the sample tables; the parameter is
    compared as a string, by equality. *)
Definition sampleQuery (accountNumber : value) : result (list Accounts.row) :=
  match accountNumber with
  | VStr n =>
      Ok (Accounts.signatureQuery (String.eqb n) sampleAccounts sampleSignatures)
  | _ => Ok []
  end.


(** The stored face is at distance 1/32 from the live one. *)
Definition closeWorld : capabilities string string Q :=
  world (VArr [entry nearUrl]) [("live"%string, 0); ("near"%string, 1 # 32)].

(** The stored face is at the double nearest to 0.00005 from the live
    one. *)
Definition closestWorld : capabilities string string Q :=
  world (VArr [entry nearUrl]) [("live"%string, 0); ("near"%string, 1 # 20000)].

(** A request with a JSON body, and a multipart one with a live photo. *)
Definition jsonRequest : httpRequest string :=
  {| body_accountNumber := Some "0012345"%string; files := None |}.
Definition multipartRequest : httpRequest string :=
  {| body_accountNumber := Some "0012345"%string;
     files := Some (Some "live"%string) |}.

(* ================================================================== *)
(** * Properties *)

(** ** Running the model *)

Example sig_identical :
  compareRaw (fun _ => EmptyString) (const_image 30 15 x7f) (const_image 30 15 x7f)
  = SigOk "1.0000".
Proof. vm_compute. reflexivity. Qed.

Example sig_opposite :
  compareRaw (fun _ => EmptyString) (const_image 30 15 x00) (const_image 30 15 xff)
  = SigOk "0.0000".
Proof. vm_compute. reflexivity. Qed.

Example sig_offset_50 :
  compareRaw (fun _ => EmptyString) (const_image 30 15 x0a) (const_image 30 15 x3c)
  = SigOk "0.8039".
Proof. vm_compute. reflexivity. Qed.

Example sig_short_buffer :
  compareRaw (fun _ => EmptyString) (const_image 2 2 x0a)
    {| data := [x0a]; info_width := 2; info_height := 2 |}
  = SigOk "NaN".
Proof. vm_compute. reflexivity. Qed.


Example split_data_url :
  split "," "data:image/png;base64,AAAA" = ["data:image/png;base64"; "AAAA"]%string.
Proof. reflexivity. Qed.

Example split_no_comma : nth_error (split "," "AAAA") 1 = None.
Proof. reflexivity. Qed.

Example toFixed4_negative : toFixed4 (fun _ => EmptyString) (- (1 # 3)) = "-0.3333"%string.
Proof. vm_compute. reflexivity. Qed.

Example toFixed4_tie : toFixed4 (fun _ => EmptyString) (12345 # 100000) = "0.1235"%string.
Proof. vm_compute. reflexivity. Qed.

Example parseFloat_fixed_negative :
  option_map Qred (parseFloat_fixed "-0.3333") = Some (- (3333 # 10000)).
Proof. vm_compute. reflexivity. Qed.

Example round4_negative : round4 (- (1 # 3)) = - (3333 # 10000).
Proof. vm_compute. reflexivity. Qed.


(* ------------------------------------------------------------------ *)
(** ** The signature comparator computes the normalised mean difference *)

Lemma pixel_range (b : byte) : (0 <= pixel b <= 255)%Z.
Proof.
  unfold pixel. pose proof (Byte.to_N_bounded b). lia.
Qed.

Lemma sum_abs_diff_bounds (p1 p2 : list byte) :
  (0 <= sum_abs_diff p1 p2 <= 255 * Z.of_nat (List.length p1))%Z.
Proof.
  revert p2. induction p1 as [|a r1 IH]; intros [|b r2]; cbn [sum_abs_diff List.length]; try lia.
  specialize (IH r2). pose proof (pixel_range a). pose proof (pixel_range b). lia.
Qed.

Lemma sum_abs_diff_same (p : list byte) : sum_abs_diff p p = 0%Z.
Proof.
  induction p as [|a r IH]; cbn [sum_abs_diff]; [reflexivity|].
  rewrite IH. lia.
Qed.

Lemma sum_abs_diff_saturated (p1 p2 : list byte) :
  Forall2 (fun a b => Z.abs (pixel a - pixel b) = 255%Z) p1 p2 ->
  sum_abs_diff p1 p2 = (255 * Z.of_nat (List.length p1))%Z.
Proof.
  induction 1 as [|a b r1 r2 Hab _ IH]; cbn [sum_abs_diff List.length]; [reflexivity|].
  rewrite Hab, IH. lia.
Qed.

Lemma accumulate_step (acc a b : Z) :
  number_add (Num (inject_Z acc))
    (number_abs (number_sub (Num (inject_Z a)) (Num (inject_Z b))))
  = Num (inject_Z (acc + Z.abs (a - b))).
Proof.
  cbn [number_add number_abs number_sub].
  unfold Qminus, Qplus, Qopp, Qabs, inject_Z. cbn [Qnum Qden].
  f_equal. f_equal. lia.
Qed.

Lemma buffer_get_skipn (buf : list byte) (i : nat) (b : byte) (rest : list byte) :
  skipn i buf = b :: rest ->
  buffer_get buf i = Num (inject_Z (pixel b)) /\ skipn (S i) buf = rest.
Proof.
  revert buf. induction i as [|i IH]; intros [|c buf] H; cbn in H; try discriminate.
  - inversion H; subst. split; reflexivity.
  - apply IH in H. exact H.
Qed.

(** The index loop adds up exactly the differences of the pixels it has
    not visited yet. *)
Lemma difference_loop_sum (data1 data2 : list byte) :
  forall (k i : nat) (acc : Z),
    List.length data1 = (i + k)%nat -> List.length data2 = (i + k)%nat ->
    difference_loop data1 data2 k i (Num (inject_Z acc))
    = Num (inject_Z (acc + sum_abs_diff (skipn i data1) (skipn i data2))).
Proof.
  induction k as [|k IH]; intros i acc H1 H2.
  - cbn [difference_loop].
    rewrite (skipn_all2 data1) by lia. cbn [sum_abs_diff].
    do 2 f_equal. lia.
  - cbn [difference_loop].
    destruct (skipn i data1) as [|a r1] eqn:E1.
    { apply (f_equal (@List.length byte)) in E1. rewrite length_skipn in E1.
      cbn in E1. lia. }
    destruct (skipn i data2) as [|b r2] eqn:E2.
    { apply (f_equal (@List.length byte)) in E2. rewrite length_skipn in E2.
      cbn in E2. lia. }
    destruct (buffer_get_skipn _ _ _ _ E1) as [G1 S1].
    destruct (buffer_get_skipn _ _ _ _ E2) as [G2 S2].
    rewrite G1, G2, accumulate_step.
    rewrite IH by lia. rewrite S1, S2. cbn [sum_abs_diff].
    do 2 f_equal. lia.
Qed.

Lemma Qltb_lt (x y : Q) : Qltb x y = true <-> x < y.
Proof.
  unfold Qltb. rewrite negb_true_iff. split.
  - intro H. apply Qnot_le_lt. intro L. apply Qle_bool_iff in L. congruence.
  - intro H. destruct (Qle_bool y x) eqn:E; [|reflexivity].
    apply Qle_bool_iff in E. exfalso. apply (Qlt_not_le _ _ H E).
Qed.

Lemma Qltb_ge (x y : Q) : Qltb x y = false <-> y <= x.
Proof.
  unfold Qltb. rewrite negb_false_iff. apply Qle_bool_iff.
Qed.

Lemma Qle_bool_gt (x y : Q) : Qle_bool x y = false <-> y < x.
Proof.
  rewrite <- Qltb_lt. unfold Qltb. rewrite negb_true_iff. reflexivity.
Qed.

(** [toFixed_n] picks a nearest multiple of 1/10000. *)
Lemma toFixed_n_close (x : Q) :
  Qabs ((toFixed_n x # 10000) - x) <= 1 # 20000.
Proof.
  unfold toFixed_n.
  set (y := x * 10000 + (1 # 2)).
  pose proof (Qfloor_le y) as Hlo.
  pose proof (Qlt_floor y) as Hhi.
  rewrite inject_Z_plus in Hhi. change (inject_Z 1) with 1 in Hhi.
  assert (E : (Qfloor y # 10000) == inject_Z (Qfloor y) / 10000).
  { unfold Qeq, Qdiv, Qmult, Qinv, inject_Z. cbn. lia. }
  rewrite E. subst y.
  apply Qabs_Qle_condition. split.
  - apply Qle_minus_iff.
    setoid_replace (inject_Z (Qfloor (x * 10000 + (1 # 2))) / 10000 - x + - - (1 # 20000))
      with ((inject_Z (Qfloor (x * 10000 + (1 # 2))) + 1 - (x * 10000 + (1 # 2))) / 10000)
      by field.
    apply Qle_shift_div_l; [reflexivity|]. lra.
  - apply Qle_minus_iff.
    setoid_replace ((1 # 20000) + - (inject_Z (Qfloor (x * 10000 + (1 # 2))) / 10000 - x))
      with ((x * 10000 + (1 # 2) - inject_Z (Qfloor (x * 10000 + (1 # 2)))) / 10000)
      by field.
    apply Qle_shift_div_l; [reflexivity|]. lra.
Qed.

Section SignatureFacts.
Variable Number_toString : Q -> string.

Lemma toFixed4_unit_interval (s : Q) :
  0 <= s <= 1 -> toFixed4 Number_toString s = fixed_digits (toFixed_n s).
Proof.
  intros [H0 H1]. unfold toFixed4.
  assert (L : Qltb s 0 = false) by (apply Qltb_ge; exact H0).
  rewrite L.
  assert (B : Qle_bool (10 ^ 21) s = false).
  { apply Qle_bool_gt. apply Qle_lt_trans with 1; [exact H1|reflexivity]. }
  rewrite B. reflexivity.
Qed.

(** C4.  For two single-channel raw images of the same positive
    dimensions the comparator's similarity is
    [1 - (sum of |p1_i - p2_i|) / (pixelCount * 255)]; it lies in [0,1];
    the response carries it as the 4-decimal string of the nearest
    multiple of 1/10000; identical pixel data give 1 and the string
    1.0000, and pixel data that differ by 255 everywhere give 0 and the
    string 0.0000. *)
Theorem signature_similarity_formula (img1 img2 : rawImage) :
  info_width img1 = info_width img2 ->
  info_height img1 = info_height img2 ->
  (0 < info_width img1 * info_height img1)%N ->
  List.length (data img1) = N.to_nat (info_width img1 * info_height img1) ->
  List.length (data img2) = N.to_nat (info_width img1 * info_height img1) ->
  let pixelCount := inject_Z (Z.of_N (info_width img1 * info_height img1)) in
  let s := 1 - inject_Z (sum_abs_diff (data img1) (data img2))
               / (pixelCount * 255) in
  similarity_of img1 img2 = Num s
  /\ 0 <= s <= 1
  /\ compareRaw Number_toString img1 img2 = SigOk (fixed_digits (toFixed_n s))
  /\ Qabs ((toFixed_n s # 10000) - s) <= 1 # 20000
  /\ (data img1 = data img2 ->
      s == 1 /\ compareRaw Number_toString img1 img2 = SigOk "1.0000")
  /\ (Forall2 (fun a b => Z.abs (pixel a - pixel b) = 255%Z)
        (data img1) (data img2) ->
      s == 0 /\ compareRaw Number_toString img1 img2 = SigOk "0.0000").
Proof.
  intros Hw Hh Hpos Hl1 Hl2 pixelCount s.
  set (pc := (info_width img1 * info_height img1)%N) in *.
  assert (Hsim : similarity_of img1 img2 = Num s).
  { unfold similarity_of. fold pc.
    change (Num 0) with (Num (inject_Z 0)).
    rewrite difference_loop_sum by (rewrite ?Hl1, ?Hl2; reflexivity).
    cbn [skipn Z.add]. unfold number_div.
    assert (Hnz : Qeq_bool (inject_Z (Z.of_N pc) * 255) 0 = false).
    { destruct (Qeq_bool (inject_Z (Z.of_N pc) * 255) 0) eqn:E; [|reflexivity].
      apply Qeq_bool_iff in E. unfold Qeq, Qmult, inject_Z in E. cbn in E. lia. }
    rewrite Hnz. reflexivity. }
  pose proof (sum_abs_diff_bounds (data img1) (data img2)) as Hb.
  rewrite Hl1 in Hb. rewrite N_nat_Z in Hb.
  assert (Hd : 0 < pixelCount * 255).
  { unfold pixelCount, Qlt, Qmult, inject_Z. cbn. lia. }
  assert (Hrange : 0 <= s <= 1).
  { subst s. split.
    - apply Qle_minus_iff.
      set (total := inject_Z (sum_abs_diff (data img1) (data img2))).
      setoid_replace (1 - total / (pixelCount * 255) + - 0)
        with ((pixelCount * 255 - total) / (pixelCount * 255))
        by (field; intro Z0; rewrite Z0 in Hd; discriminate Hd).
      subst total.
      apply Qle_shift_div_l; [exact Hd|].
      rewrite Qmult_0_l. unfold pixelCount, Qle, Qminus, Qplus, Qopp, Qmult, inject_Z. cbn. lia.
    - apply Qle_minus_iff.
      set (total := inject_Z (sum_abs_diff (data img1) (data img2))).
      setoid_replace (1 + - (1 - total / (pixelCount * 255)))
        with (total / (pixelCount * 255))
        by (field; intro Z0; rewrite Z0 in Hd; discriminate Hd).
      subst total.
      apply Qle_shift_div_l; [exact Hd|].
      rewrite Qmult_0_l. unfold Qle, inject_Z. cbn. lia. }
  assert (Hresp : compareRaw Number_toString img1 img2
                  = SigOk (fixed_digits (toFixed_n s))).
  { unfold compareRaw. rewrite Hw, Hh, !N.eqb_refl. cbn [negb orb].
    rewrite Hsim. cbn [number_toFixed4].
    rewrite toFixed4_unit_interval by exact Hrange. reflexivity. }
  split; [exact Hsim|]. split; [exact Hrange|]. split; [exact Hresp|].
  split; [apply toFixed_n_close|]. split.
  - intro Hsame.
    assert (E : s == 1).
    { subst s. rewrite Hsame, sum_abs_diff_same.
      change (inject_Z 0) with 0. unfold Qdiv. rewrite Qmult_0_l. reflexivity. }
    split; [exact E|]. rewrite Hresp.
    unfold toFixed_n. rewrite E. reflexivity.
  - intro Hsat.
    assert (E : s == 0).
    { assert (HS : sum_abs_diff (data img1) (data img2) = (255 * Z.of_N pc)%Z).
      { rewrite (sum_abs_diff_saturated _ _ Hsat). rewrite Hl1.
        rewrite N_nat_Z. reflexivity. }
      subst s. rewrite HS. unfold pixelCount.
      rewrite inject_Z_mult. change (inject_Z 255) with 255.
      field. intro Z0. unfold pixelCount in Hd.
      rewrite Z0 in Hd. discriminate Hd. }
    split; [exact E|]. rewrite Hresp.
    unfold toFixed_n. rewrite E. reflexivity.
Qed.

End SignatureFacts.


(* ------------------------------------------------------------------ *)
(** ** Rounding to four decimals *)

Lemma Qltb_comp (x x' y y' : Q) : x == x' -> y == y' -> Qltb x y = Qltb x' y'.
Proof.
  intros Hx Hy. destruct (Qltb x' y') eqn:E.
  - apply Qltb_lt. apply Qltb_lt in E. rewrite Hx, Hy. exact E.
  - apply Qltb_ge. apply Qltb_ge in E. rewrite Hx, Hy. exact E.
Qed.

Lemma Qle_bool_comp (x x' y y' : Q) :
  x == x' -> y == y' -> Qle_bool x y = Qle_bool x' y'.
Proof.
  intros Hx Hy. destruct (Qle_bool x' y') eqn:E.
  - apply Qle_bool_iff. apply Qle_bool_iff in E. rewrite Hx, Hy. exact E.
  - apply Qle_bool_gt. apply Qle_bool_gt in E. rewrite Hx, Hy. exact E.
Qed.

Lemma toFixed_n_comp (x y : Q) : x == y -> toFixed_n x = toFixed_n y.
Proof.
  intro H. unfold toFixed_n. rewrite H. reflexivity.
Qed.

(** Equal numbers round to the same term. *)
Lemma round4_comp (x y : Q) : x == y -> round4 x = round4 y.
Proof.
  intro H. unfold round4.
  rewrite (Qle_bool_comp (10 ^ 21) (10 ^ 21) (Qabs x) (Qabs y))
    by (try reflexivity; rewrite H; reflexivity).
  rewrite (Qltb_comp x y 0 0 H) by reflexivity.
  rewrite (toFixed_n_comp x y H).
  rewrite (toFixed_n_comp (- x) (- y)) by (rewrite H; reflexivity).
  destruct (Qle_bool (10 ^ 21) (Qabs y)); [apply Qred_complete; exact H|].
  reflexivity.
Qed.

Lemma Qmake_10000 (n : Z) : (n # 10000) == inject_Z n / 10000.
Proof.
  unfold Qeq, Qdiv, Qmult, Qinv, inject_Z. cbn. lia.
Qed.

Lemma nearest_mono (s t : Q) : s <= t -> nearest s <= nearest t.
Proof.
  intro H. unfold nearest.
  apply Qmult_le_compat_r; [|discriminate].
  rewrite <- Zle_Qle. unfold toFixed_n. apply Qfloor_resp_le. lra.
Qed.

Lemma nearest_nonneg (t : Q) : 0 <= t -> 0 <= nearest t.
Proof.
  intro H. apply (nearest_mono 0 t) in H.
  apply Qle_trans with (nearest 0); [|exact H].
  vm_compute. discriminate.
Qed.

Lemma nearest_below_limit (t : Q) : t <= 10 ^ 21 -> nearest t <= 10 ^ 21.
Proof.
  intro H. apply (nearest_mono t (10 ^ 21)) in H.
  apply Qle_trans with (nearest (10 ^ 21)); [exact H|].
  vm_compute. discriminate.
Qed.

(** The three cases of [round4], as rational numbers. *)
Lemma round4_cases (x : Q) :
  (10 ^ 21 <= Qabs x /\ round4 x == x)
  \/ (Qabs x < 10 ^ 21 /\ x < 0 /\ round4 x == - nearest (- x))
  \/ (Qabs x < 10 ^ 21 /\ 0 <= x /\ round4 x == nearest x).
Proof.
  unfold round4, nearest.
  destruct (Qle_bool (10 ^ 21) (Qabs x)) eqn:B.
  - left. split; [apply Qle_bool_iff; exact B|apply Qred_correct].
  - right. apply Qle_bool_gt in B.
    destruct (Qltb x 0) eqn:S.
    + left. apply Qltb_lt in S. split; [exact B|]. split; [exact S|].
      rewrite Qred_correct, Qmake_10000. reflexivity.
    + right. apply Qltb_ge in S. split; [exact B|]. split; [exact S|].
      rewrite Qred_correct, Qmake_10000. reflexivity.
Qed.

Lemma round4_mono (x y : Q) : x <= y -> round4 x <= round4 y.
Proof.
  intro H.
  assert (L : 0 < 10 ^ 21) by reflexivity.
  destruct (round4_cases x) as [[Bx Ex]|[[Bx [Sx Ex]]|[Bx [Sx Ex]]]];
  destruct (round4_cases y) as [[By Ey]|[[By [Sy Ey]]|[By [Sy Ey]]]];
  rewrite Ex, Ey.
  - exact H.
  - (* x large, y small and negative: x is below the negative limit *)
    rewrite Qabs_neg in By by lra.
    assert (x < 0) by lra. rewrite Qabs_neg in Bx by lra.
    pose proof (nearest_below_limit (- y)). lra.
  - destruct (Qlt_le_dec x 0) as [N|P].
    + pose proof (nearest_nonneg y Sy). lra.
    + rewrite Qabs_pos in Bx, By by lra. lra.
  - rewrite Qabs_neg in Bx by lra.
    destruct (Qlt_le_dec y 0) as [N|P].
    + rewrite Qabs_neg in By by lra. lra.
    + pose proof (nearest_nonneg (- x)). lra.
  - pose proof (nearest_mono (- y) (- x)). lra.
  - pose proof (nearest_nonneg (- x)). pose proof (nearest_nonneg y Sy). lra.
  - rewrite Qabs_pos in Bx by lra.
    destruct (Qlt_le_dec y 0) as [N|P].
    + lra.
    + rewrite Qabs_pos in By by lra.
      pose proof (nearest_below_limit x). lra.
  - lra.
  - apply nearest_mono. exact H.
Qed.

Lemma round4_zero : round4 0 = 0.
Proof. reflexivity. Qed.

Lemma round4_nonneg (x : Q) : 0 <= x -> 0 <= round4 x.
Proof.
  intro H. apply round4_mono in H. rewrite round4_zero in H. exact H.
Qed.

(** Rounding commutes with taking the larger of two numbers. *)
Lemma round4_max (x y : Q) : round4 (Qmax x y) == Qmax (round4 x) (round4 y).
Proof.
  destruct (Qlt_le_dec x y) as [L|L].
  - apply Qlt_le_weak in L.
    rewrite (round4_comp _ _ (Q.max_r x y L)).
    rewrite Q.max_r by (apply round4_mono; exact L). reflexivity.
  - rewrite (round4_comp _ _ (Q.max_l x y L)).
    rewrite Q.max_l by (apply round4_mono; exact L). reflexivity.
Qed.

(** Below the limit the rounded value is within 0.00005 of the number. *)
Lemma round4_close (x : Q) :
  Qabs x < 10 ^ 21 -> Qabs (round4 x - x) <= 1 # 20000.
Proof.
  intro B.
  destruct (round4_cases x) as [[Bx Ex]|[[_ [Sx Ex]]|[_ [Sx Ex]]]].
  - exfalso. apply (Qlt_not_le _ _ B Bx).
  - rewrite Ex. pose proof (toFixed_n_close (- x)) as C.
    rewrite Qmake_10000 in C. fold (nearest (- x)) in C.
    apply Qabs_Qle_condition in C. apply Qabs_Qle_condition. lra.
  - rewrite Ex. pose proof (toFixed_n_close x) as C.
    rewrite Qmake_10000 in C. fold (nearest x) in C. exact C.
Qed.

(* ------------------------------------------------------------------ *)
(** ** Reading back what [toFixed(4)] writes *)

Lemma digits_acc (s : string) :
  forall acc,
    digits s acc
    = option_map (fun v => (acc * 10 ^ N.of_nat (String.length s) + v)%N)
        (digits s 0).
Proof.
  induction s as [|c s IH]; intro acc; cbn [digits String.length].
  - cbn. f_equal. lia.
  - destruct (digit c) as [d|]; [|reflexivity].
    rewrite (IH (10 * acc + d)%N), (IH (10 * 0 + d)%N).
    destruct (digits s 0) as [v|]; cbn [option_map]; [|reflexivity].
    f_equal. rewrite Nat2N.inj_succ, N.pow_succ_r'. lia.
Qed.

Lemma digits_app (a b : string) (acc : N) :
  digits (a ++ b) acc
  = match digits a acc with
    | Some v => digits b v
    | None => None
    end.
Proof.
  revert acc. induction a as [|c a IH]; intro acc; cbn [append digits].
  - reflexivity.
  - destruct (digit c); [apply IH|reflexivity].
Qed.

Lemma digits_string_of_uint (d : Decimal.uint) :
  forall acc,
    digits (NilEmpty.string_of_uint d) acc
    = Some (acc * 10 ^ DecimalPos.Unsigned.usize d + DecimalPos.Unsigned.of_lu (Decimal.rev d))%N.
Proof.
  induction d; intro acc; cbn [NilEmpty.string_of_uint digits];
    [cbn; f_equal; lia|..];
    (match goal with
     | |- context [digit ?c] =>
         let v := eval vm_compute in (digit c) in change (digit c) with v
     end;
     cbv iota; rewrite IHd; f_equal;
     match goal with
     | |- context [DecimalPos.Unsigned.of_lu (Decimal.rev (?D d))] =>
         change (Decimal.rev (D d)) with (Decimal.revapp d (D Decimal.Nil));
         rewrite (DecimalPos.Unsigned.of_lu_revapp d (D Decimal.Nil))
     end;
     cbn [DecimalPos.Unsigned.of_lu DecimalPos.Unsigned.usize];
     rewrite N.pow_succ_r'; ring).
Qed.

Lemma digits_to_uint (n : N) :
  digits (NilZero.string_of_uint (N.to_uint n)) 0 = Some n.
Proof.
  destruct n as [|p]; [reflexivity|].
  unfold NilZero.string_of_uint. cbn [N.to_uint].
  pose proof (DecimalPos.Unsigned.to_uint_nonnil p) as Hnn.
  destruct (Pos.to_uint p) eqn:E; [contradiction| ..];
    rewrite <- E; rewrite digits_string_of_uint;
    rewrite <- DecimalPos.Unsigned.of_uint_alt, DecimalPos.Unsigned.of_to; f_equal; lia.
Qed.

Lemma zeros_length (k : nat) : String.length (zeros k) = k.
Proof. induction k; cbn; congruence. Qed.

Lemma digits_zeros (k : nat) (s : string) : digits (zeros k ++ s) 0 = digits s 0.
Proof. induction k; cbn [zeros append digits]; [reflexivity|exact IHk]. Qed.

Lemma append_length (a b : string) :
  String.length (a ++ b) = (String.length a + String.length b)%nat.
Proof. induction a; cbn; congruence. Qed.

Lemma substring_split (s : string) :
  forall j, (j <= String.length s)%nat ->
    s = (substring 0 j s ++ substring j (String.length s - j) s)%string
    /\ String.length (substring j (String.length s - j) s) = (String.length s - j)%nat.
Proof.
  induction s as [|c s IH]; intros j Hj.
  - cbn in Hj. assert (j = 0)%nat by lia. subst. split; reflexivity.
  - destruct j as [|j].
    + cbn [substring append String.length Nat.sub].
      clear. split.
      * f_equal. induction s; cbn; congruence.
      * cbn. f_equal. induction s; cbn; congruence.
    + cbn [String.length] in Hj. destruct (IH j ltac:(lia)) as [E L].
      cbn [substring append String.length Nat.sub]. split.
      * f_equal. exact E.
      * exact L.
Qed.

(** A string of digits has no point in it. *)
Lemma split_digits (s : string) :
  forall acc v, digits s acc = Some v -> split "." s = [s].
Proof.
  induction s as [|c s IH]; intros acc v H; cbn [split]; [reflexivity|].
  cbn [digits] in H. destruct (digit c) as [d|] eqn:D; [|discriminate].
  rewrite (IH _ _ H).
  destruct (Ascii.eqb c ".") eqn:E; [|reflexivity].
  apply Ascii.eqb_eq in E. subst c. discriminate D.
Qed.

Lemma split_point (a b : string) :
  split "." a = [a] -> split "." (a ++ "." ++ b) = a :: split "." b.
Proof.
  induction a as [|c a IH]; cbn [append split].
  - intros _. cbn [Ascii.eqb Bool.eqb]. 
    destruct (split "." b) eqn:E; [|reflexivity].
    exfalso. clear -E. destruct b; cbn in E; [discriminate|].
    destruct (split "." b); [discriminate|]. destruct (Ascii.eqb a "."); discriminate.
  - intro H.
    destruct (split "." a) as [|seg segs] eqn:Ea.
    + exfalso. clear -Ea. destruct a; cbn in Ea; [discriminate|].
      destruct (split "." a0); [discriminate|]. destruct (Ascii.eqb a "."); discriminate.
    + destruct (Ascii.eqb c ".") eqn:Ec; [discriminate H|].
      injection H as Hs Hg. subst seg segs.
      specialize (IH eq_refl). cbn [append] in IH. rewrite IH. reflexivity.
Qed.

Lemma fixed_digits_parse (n : Z) :
  exists whole frac w f,
    fixed_digits n = (whole ++ "." ++ frac)%string
    /\ String.length frac = 4%nat
    /\ digits whole 0 = Some w
    /\ digits frac 0 = Some f
    /\ (w * 10000 + f = Z.to_N n)%N
    /\ whole <> EmptyString.
Proof.
  unfold fixed_digits.
  set (m := NilZero.string_of_uint (N.to_uint (Z.to_N n))).
  set (m' := if (String.length m <=? 4)%nat
             then (zeros (5 - String.length m) ++ m)%string else m).
  assert (Hd : digits m' 0 = Some (Z.to_N n)).
  { subst m'. destruct (String.length m <=? 4)%nat;
      rewrite ?digits_zeros; apply digits_to_uint. }
  assert (Hl : (5 <= String.length m')%nat).
  { subst m'. destruct (String.length m <=? 4)%nat eqn:E.
    - apply Nat.leb_le in E. rewrite append_length, zeros_length. lia.
    - apply Nat.leb_gt in E. lia. }
  clearbody m'. clear m.
  set (j := (String.length m' - 4)%nat).
  destruct (substring_split m' j ltac:(lia)) as [E L].
  replace (String.length m' - j)%nat with 4%nat in * by lia.
  set (whole := substring 0 j m') in *.
  set (frac := substring j 4 m') in *.
  rewrite E, digits_app in Hd.
  destruct (digits whole 0) as [w|] eqn:Hw; [|discriminate].
  rewrite digits_acc, L in Hd.
  destruct (digits frac 0) as [f|] eqn:Hf; [|discriminate].
  cbn [option_map] in Hd. injection Hd as Hd.
  exists whole, frac, w, f.
  split; [reflexivity|]. split; [exact L|]. split; [exact Hw|].
  split; [exact Hf|]. split; [exact Hd|].
  intro Hempty. apply (f_equal String.length) in E.
  rewrite append_length, L, Hempty in E. cbn in E. lia.
Qed.

Lemma toFixed_n_nonneg (x : Q) : 0 <= x -> (0 <= toFixed_n x)%Z.
Proof.
  intro H. unfold toFixed_n.
  change 0%Z with (Qfloor 0). apply Qfloor_resp_le. lra.
Qed.

Lemma parse_fixed_digits (n : Z) :
  (0 <= n)%Z ->
  exists q,
    parseFloat_fixed (fixed_digits n) = Some q /\ q == (n # 10000)
    /\ parseFloat_fixed (String "-" (fixed_digits n)) = Some (- q).
Proof.
  intro Hn.
  destruct (fixed_digits_parse n)
    as (whole & frac & w & f & E & L & Hw & Hf & Hv & Hne).
  assert (Hs : split "." (fixed_digits n) = [whole; frac]).
  { rewrite E, (split_point whole frac (split_digits whole 0 w Hw)).
    rewrite (split_digits frac 0 f Hf). reflexivity. }
  exists (inject_Z (Z.of_N w)
          + inject_Z (Z.of_N f) / inject_Z (Z.of_N (10 ^ N.of_nat 4))).
  split; [|split].
  - unfold parseFloat_fixed.
    assert (Hfirst : match fixed_digits n with
                     | String "-" _ => true | _ => false end = false
                     /\ match fixed_digits n with
                        | String "-" rest => rest | _ => fixed_digits n end
                        = fixed_digits n).
    { rewrite E. destruct whole as [|c whole']; [contradiction|].
      cbn [append]. cbn [digits] in Hw.
      destruct (digit c) eqn:D; [|discriminate].
      destruct c as [[] [] [] [] [] [] [] []]; try discriminate D;
        split; reflexivity. }
    destruct Hfirst as [-> ->]. rewrite Hs, Hw, Hf, L. reflexivity.
  - assert (Hz : (Z.of_N w * 10000 + Z.of_N f = n)%Z) by lia.
    rewrite <- Hz. unfold Qeq, Qdiv, Qplus, Qmult, Qinv, inject_Z. cbn.
    destruct (Z.of_N f); cbn; lia.
  - unfold parseFloat_fixed. rewrite Hs, Hw, Hf, L. reflexivity.
Qed.


(* ------------------------------------------------------------------ *)
(** ** Doubles: the nearest double is monotone and close *)

Lemma two_neq_0 : ~ 2 == 0.
Proof. discriminate. Qed.

Lemma pow2_pos (e : Z) : 0 < 2 ^ e.
Proof. apply Qpower_0_lt. reflexivity. Qed.

Lemma pow2_le (a b : Z) : (a <= b)%Z -> 2 ^ a <= 2 ^ b.
Proof. intro H. apply Qpower_le_compat_l; [exact H|discriminate]. Qed.

Lemma pow2_lt (a b : Z) : (a < b)%Z -> 2 ^ a < 2 ^ b.
Proof. intro H. apply Qpower_lt_compat_l; [exact H|reflexivity]. Qed.

Lemma pow2_Z (n : Z) : (0 <= n)%Z -> 2 ^ n == inject_Z (2 ^ n).
Proof. intro H. rewrite Zpower_Qpower by exact H. reflexivity. Qed.

Lemma pow2_sub (a b : Z) : 2 ^ (a - b) == 2 ^ a / 2 ^ b.
Proof. apply Qpower_minus. exact two_neq_0. Qed.

Lemma Qmake_times_den (n : Z) (d : positive) :
  (n # d) * inject_Z (Zpos d) == inject_Z n.
Proof. unfold Qeq, Qmult, inject_Z. cbn [Qnum Qden]. lia. Qed.

Lemma Qlog2_spec (x : Q) :
  0 < x -> 2 ^ Qlog2 x <= x /\ x < 2 ^ (Qlog2 x + 1).
Proof.
  intro Hx. destruct x as [n d].
  assert (Hn : (0 < n)%Z).
  { unfold Qlt in Hx. cbn [Qnum Qden] in Hx. lia. }
  unfold Qlog2. cbn [Qnum Qden].
  set (a := Z.log2 n). set (b := Z.log2 (Zpos d)).
  assert (Ha : (0 <= a)%Z) by apply Z.log2_nonneg.
  assert (Hb : (0 <= b)%Z) by apply Z.log2_nonneg.
  destruct (Z.log2_spec n Hn) as [Ha1 Ha2]. fold a in Ha1, Ha2.
  destruct (Z.log2_spec (Zpos d) (Pos2Z.is_pos d)) as [Hb1 Hb2].
  fold b in Hb1, Hb2.
  pose proof (Qmake_times_den n d) as Hnd.
  destruct (Qle_bool (2 ^ (a - b)) (n # d)) eqn:E.
  - apply Qle_bool_iff in E. split; [exact E|].
    replace (a - b + 1)%Z with (Z.succ a - b)%Z by lia.
    rewrite pow2_sub. apply Qlt_shift_div_l; [apply pow2_pos|].
    rewrite (pow2_Z b Hb), (pow2_Z (Z.succ a)) by lia.
    apply Qle_lt_trans with ((n # d) * inject_Z (Zpos d)).
    + apply Qmult_le_l; [exact Hx|]. rewrite <- Zle_Qle. exact Hb1.
    + rewrite Hnd. rewrite <- Zlt_Qlt. exact Ha2.
  - apply Qle_bool_gt in E. split.
    + replace (a - b - 1)%Z with (a - Z.succ b)%Z by lia.
      rewrite pow2_sub. apply Qle_shift_div_r; [apply pow2_pos|].
      rewrite (pow2_Z a Ha), (pow2_Z (Z.succ b)) by lia.
      apply Qle_trans with ((n # d) * inject_Z (Zpos d)).
      * rewrite Hnd. rewrite <- Zle_Qle. exact Ha1.
      * apply Qmult_le_l; [exact Hx|]. rewrite <- Zle_Qle. lia.
    + replace (a - b - 1 + 1)%Z with (a - b)%Z by lia. exact E.
Qed.

Lemma Qlog2_unique (x : Q) (k : Z) :
  2 ^ k <= x -> x < 2 ^ (k + 1) -> Qlog2 x = k.
Proof.
  intros H1 H2.
  assert (Hx : 0 < x) by (apply Qlt_le_trans with (2 ^ k); [apply pow2_pos|exact H1]).
  destruct (Qlog2_spec x Hx) as [L1 L2].
  assert (A : (k < Qlog2 x + 1)%Z).
  { apply (Qpower_lt_compat_l_inv 2); [|reflexivity].
    apply Qle_lt_trans with x; assumption. }
  assert (B : (Qlog2 x < k + 1)%Z).
  { apply (Qpower_lt_compat_l_inv 2); [|reflexivity].
    apply Qle_lt_trans with x; assumption. }
  lia.
Qed.

Lemma Qlog2_mono (x y : Q) : 0 < x -> x <= y -> (Qlog2 x <= Qlog2 y)%Z.
Proof.
  intros Hx Hxy.
  assert (Hy : 0 < y) by (apply Qlt_le_trans with x; assumption).
  destruct (Qlog2_spec x Hx) as [L1 _].
  destruct (Qlog2_spec y Hy) as [_ L2].
  assert (A : (Qlog2 x < Qlog2 y + 1)%Z).
  { apply (Qpower_lt_compat_l_inv 2); [|reflexivity].
    apply Qle_lt_trans with x; [exact L1|].
    apply Qle_lt_trans with y; assumption. }
  lia.
Qed.

Lemma nearestEven_bounds (y : Q) :
  (Qfloor y <= nearestEven y <= Qfloor y + 1)%Z.
Proof.
  unfold nearestEven.
  destruct (Qcompare (y - inject_Z (Qfloor y)) (1 # 2)); [|lia|lia].
  destruct (Z.even (Qfloor y)); lia.
Qed.

Lemma nearestEven_comp (x y : Q) : x == y -> nearestEven x = nearestEven y.
Proof.
  intro H. unfold nearestEven. rewrite (Qfloor_comp x y H).
  assert (E : x - inject_Z (Qfloor y) == y - inject_Z (Qfloor y))
    by (rewrite H; reflexivity).
  rewrite (Qcompare_comp _ _ E (1 # 2) (1 # 2) (Qeq_refl _)). reflexivity.
Qed.

Lemma nearestEven_Z (z : Z) : nearestEven (inject_Z z) = z.
Proof.
  unfold nearestEven. rewrite Qfloor_Z.
  assert (E : Qcompare (inject_Z z - inject_Z z) (1 # 2) = Lt).
  { apply Qlt_alt. setoid_replace (inject_Z z - inject_Z z) with 0 by ring.
    reflexivity. }
  rewrite E. reflexivity.
Qed.

Lemma nearestEven_mono (x y : Q) :
  x <= y -> (nearestEven x <= nearestEven y)%Z.
Proof.
  intro H. pose proof (Qfloor_resp_le x y H) as F.
  destruct (Z.eq_dec (Qfloor x) (Qfloor y)) as [E|N].
  - unfold nearestEven. rewrite E.
    destruct (Qcompare_spec (x - inject_Z (Qfloor y)) (1 # 2)) as [Cx|Cx|Cx];
    destruct (Qcompare_spec (y - inject_Z (Qfloor y)) (1 # 2)) as [Cy|Cy|Cy];
      try (destruct (Z.even (Qfloor y))); try lia; exfalso; lra.
  - pose proof (nearestEven_bounds x). pose proof (nearestEven_bounds y). lia.
Qed.

Lemma nearestEven_close (y : Q) :
  Qabs (inject_Z (nearestEven y) - y) <= 1 # 2.
Proof.
  pose proof (Qfloor_le y) as L. pose proof (Qlt_floor y) as U.
  rewrite inject_Z_plus in U. change (inject_Z 1) with 1 in U.
  apply Qabs_Qle_condition. unfold nearestEven.
  destruct (Qcompare_spec (y - inject_Z (Qfloor y)) (1 # 2)) as [C|C|C];
    try (destruct (Z.even (Qfloor y)));
    try (rewrite inject_Z_plus; change (inject_Z 1) with 1); lra.
Qed.

Lemma roundToMultiple_mono (e : Z) (a b : Q) :
  a <= b -> roundToMultiple e a <= roundToMultiple e b.
Proof.
  intro H. unfold roundToMultiple.
  apply Qmult_le_compat_r; [|apply Qlt_le_weak, pow2_pos].
  rewrite <- Zle_Qle. apply nearestEven_mono.
  apply Qmult_le_compat_r; [exact H|].
  apply Qlt_le_weak, Qinv_lt_0_compat, pow2_pos.
Qed.

Lemma roundToMultiple_pow2 (e j : Z) :
  (e <= j)%Z -> roundToMultiple e (2 ^ j) == 2 ^ j.
Proof.
  intro H. unfold roundToMultiple.
  assert (E : 2 ^ j / 2 ^ e == inject_Z (2 ^ (j - e))).
  { rewrite <- pow2_sub. apply pow2_Z. lia. }
  rewrite (nearestEven_comp _ _ E), nearestEven_Z.
  rewrite <- pow2_Z by lia. rewrite <- Qpower_plus by exact two_neq_0.
  replace (j - e + e)%Z with j by lia. reflexivity.
Qed.

Lemma roundToMultiple_zero (e : Z) (a : Q) :
  a == 0 -> roundToMultiple e a == 0.
Proof.
  intro H. unfold roundToMultiple.
  assert (E : a / 2 ^ e == inject_Z 0).
  { rewrite H. unfold Qdiv. rewrite Qmult_0_l. reflexivity. }
  rewrite (nearestEven_comp _ _ E), nearestEven_Z. apply Qmult_0_l.
Qed.

Lemma roundToMultiple_nonneg (e : Z) (a : Q) :
  0 <= a -> 0 <= roundToMultiple e a.
Proof.
  intro H. rewrite <- (roundToMultiple_zero e 0) by reflexivity.
  apply roundToMultiple_mono. exact H.
Qed.

Lemma roundToMultiple_close (e : Z) (a : Q) :
  Qabs (roundToMultiple e a - a) <= 2 ^ e / 2.
Proof.
  unfold roundToMultiple.
  pose proof (pow2_pos e) as P.
  pose proof (nearestEven_close (a / 2 ^ e)) as C.
  set (n := inject_Z (nearestEven (a / 2 ^ e))) in *.
  assert (E : n * 2 ^ e - a == (n - a / 2 ^ e) * 2 ^ e).
  { field. intro Z. rewrite Z in P. discriminate P. }
  rewrite E, Qabs_Qmult, (Qabs_pos (2 ^ e)) by (apply Qlt_le_weak; exact P).
  setoid_replace (2 ^ e / 2) with ((1 # 2) * 2 ^ e) by field.
  apply Qmult_le_compat_r; [exact C|apply Qlt_le_weak; exact P].
Qed.

(** The magnitude of a double. *)
Lemma magnitude_mono (a b : Q) :
  0 <= a -> a <= b ->
  roundToMultiple (lastBit a) a <= roundToMultiple (lastBit b) b.
Proof.
  intros H0 H.
  destruct (Qlt_le_dec 0 a) as [Ha|Ha].
  2:{ rewrite (roundToMultiple_zero (lastBit a) a) by (apply Qle_antisym; assumption).
      apply roundToMultiple_nonneg. apply Qle_trans with a; assumption. }
  assert (Hb : 0 < b) by (apply Qlt_le_trans with a; assumption).
  pose proof (Qlog2_mono a b Ha H) as L.
  destruct (Z.eq_dec (lastBit a) (lastBit b)) as [E|N].
  - rewrite E. apply roundToMultiple_mono. exact H.
  - assert (Lt : (lastBit a < lastBit b)%Z) by (unfold lastBit in *; lia).
    assert (Eb : lastBit b = (Qlog2 b - 52)%Z) by (unfold lastBit in *; lia).
    assert (Lab : (Qlog2 a + 1 <= Qlog2 b)%Z) by (unfold lastBit in *; lia).
    destruct (Qlog2_spec a Ha) as [_ Ua].
    destruct (Qlog2_spec b Hb) as [Lb _].
    apply Qle_trans with (2 ^ Qlog2 b).
    + rewrite <- (roundToMultiple_pow2 (lastBit a) (Qlog2 b)) by lia.
      apply roundToMultiple_mono.
      apply Qle_trans with (2 ^ (Qlog2 a + 1));
        [apply Qlt_le_weak; exact Ua|apply pow2_le; exact Lab].
    + rewrite <- (roundToMultiple_pow2 (lastBit b) (Qlog2 b)) at 1 by lia.
      apply roundToMultiple_mono. exact Lb.
Qed.

Lemma magnitude_comp (a b : Q) :
  0 <= a -> a == b ->
  roundToMultiple (lastBit a) a == roundToMultiple (lastBit b) b.
Proof.
  intros H0 E. apply Qle_antisym; apply magnitude_mono.
  - exact H0.
  - rewrite E. apply Qle_refl.
  - rewrite <- E. exact H0.
  - rewrite E. apply Qle_refl.
Qed.

Lemma double_value (x : Q) :
  double x == (if Qltb x 0 then - roundToMultiple (lastBit (Qabs x)) (Qabs x)
               else roundToMultiple (lastBit (Qabs x)) (Qabs x)).
Proof. unfold double. apply Qred_correct. Qed.

Lemma double_mono (x y : Q) : x <= y -> double x <= double y.
Proof.
  intro H. rewrite !double_value.
  pose proof (roundToMultiple_nonneg (lastBit (Qabs x)) (Qabs x) (Qabs_nonneg x)) as Nx.
  pose proof (roundToMultiple_nonneg (lastBit (Qabs y)) (Qabs y) (Qabs_nonneg y)) as Ny.
  destruct (Qltb x 0) eqn:Sx; destruct (Qltb y 0) eqn:Sy.
  - apply Qltb_lt in Sx, Sy. apply Qopp_le_compat.
    apply magnitude_mono; [apply Qabs_nonneg|].
    rewrite !Qabs_neg by (apply Qlt_le_weak; assumption). lra.
  - lra.
  - apply Qltb_ge in Sx. apply Qltb_lt in Sy. exfalso. lra.
  - apply Qltb_ge in Sx, Sy.
    apply magnitude_mono; [apply Qabs_nonneg|].
    rewrite !Qabs_pos by assumption. exact H.
Qed.

(** Equal numbers have the same double, as a term. *)
Lemma double_comp (x y : Q) : x == y -> double x = double y.
Proof.
  intro H. unfold double. apply Qred_complete.
  rewrite (Qltb_comp x y 0 0 H (Qeq_refl 0)).
  assert (E : Qabs x == Qabs y) by (rewrite H; reflexivity).
  pose proof (magnitude_comp (Qabs x) (Qabs y) (Qabs_nonneg x) E) as M.
  destruct (Qltb y 0); rewrite M; reflexivity.
Qed.

Lemma double_close (x : Q) :
  2 ^ (-1022) <= Qabs x ->
  Qabs (double x - x) <= Qabs x / 2 ^ 53.
Proof.
  intro H.
  set (a := Qabs x) in *.
  assert (Ha : 0 < a) by (apply Qlt_le_trans with (2 ^ (-1022)); [apply pow2_pos|exact H]).
  destruct (Qlog2_spec a Ha) as [La Ua].
  assert (L : (-1022 <= Qlog2 a)%Z).
  { assert (A : (-1022 < Qlog2 a + 1)%Z); [|lia].
    apply (Qpower_lt_compat_l_inv 2); [|reflexivity].
    apply Qle_lt_trans with a; assumption. }
  assert (E : lastBit a = (Qlog2 a - 52)%Z) by (unfold lastBit; lia).
  pose proof (roundToMultiple_close (lastBit a) a) as C.
  assert (B : 2 ^ lastBit a / 2 <= a / 2 ^ 53).
  { rewrite E.
    replace (Qlog2 a - 52)%Z with (Qlog2 a - 53 + 1)%Z by lia.
    rewrite Qpower_plus by exact two_neq_0. rewrite pow2_sub.
    change (2 ^ 1) with 2.
    setoid_replace (2 ^ Qlog2 a / 2 ^ 53 * 2 / 2) with (2 ^ Qlog2 a / 2 ^ 53)
      by field.
    apply Qmult_le_compat_r; [exact La|]. discriminate. }
  assert (D : Qabs (double x - x) == Qabs (roundToMultiple (lastBit a) a - a)).
  { rewrite double_value. fold a.
    destruct (Qltb x 0) eqn:S.
    - apply Qltb_lt in S.
      assert (Ex : x == - a)
        by (unfold a; rewrite (Qabs_neg x) by (apply Qlt_le_weak; exact S); ring).
      rewrite <- (Qabs_opp (roundToMultiple (lastBit a) a - a)).
      apply Qabs_wd. rewrite Ex. ring.
    - apply Qltb_ge in S.
      assert (Ex : x == a) by (unfold a; rewrite (Qabs_pos x) by exact S; reflexivity).
      apply Qabs_wd. rewrite Ex. reflexivity. }
  rewrite D. apply Qle_trans with (2 ^ lastBit a / 2); assumption.
Qed.

Lemma double_zero : double 0 = 0.
Proof. vm_compute. reflexivity. Qed.

Lemma double_one : double 1 = 1.
Proof. vm_compute. reflexivity. Qed.

Lemma double_half : double (1 # 2) = 1 # 2.
Proof. vm_compute. reflexivity. Qed.

Lemma double_nonneg (x : Q) : 0 <= x -> 0 <= double x.
Proof.
  intro H. apply double_mono in H. rewrite double_zero in H. exact H.
Qed.

(** Below the threshold the similarity is at least 1/2, also at four
    decimals; from the threshold on it is at most 1/2. *)
Lemma similarity_threshold (distance : Q) :
  (distance < 1 # 2 -> 1 # 2 <= round4 (double (1 - distance)))
  /\ (1 # 2 <= distance -> round4 (double (1 - distance)) <= 1 # 2).
Proof.
  split; intro H.
  - apply Qle_trans with (round4 (double (1 # 2))); [apply Qle_refl|].
    apply round4_mono, double_mono. lra.
  - apply Qle_trans with (round4 (double (1 # 2))); [|apply Qle_refl].
    apply round4_mono, double_mono. lra.
Qed.

Lemma similarity_at_most_one (distance : Q) :
  0 <= distance -> round4 (double (1 - distance)) <= 1.
Proof.
  intro H. apply Qle_trans with (round4 (double 1)); [|apply Qle_refl].
  apply round4_mono, double_mono. lra.
Qed.

Lemma similarity_at_zero (distance : Q) :
  distance == 0 -> round4 (double (1 - distance)) = 1.
Proof.
  intro H. rewrite (double_comp (1 - distance) 1) by (rewrite H; reflexivity).
  vm_compute. reflexivity.
Qed.

(** The double nearest to 0.00005 lies above it, and one minus that
    double, which lies below 0.99995, has its nearest double above
    0.99995. *)
Example double_subtraction_rounds_up :
  let d := double (1 # 20000) in
  1 # 20000 < d
  /\ 1 - d < 99995 # 100000
  /\ 99995 # 100000 < double (1 - d)
  /\ round4 (1 - d) = 9999 # 10000
  /\ round4 (double (1 - d)) = 1.
Proof. vm_compute. repeat split. Qed.

(* ------------------------------------------------------------------ *)
(** ** The candidate loop, candidate by candidate *)

Lemma max0_nonneg (l : list Q) : 0 <= max0 l.
Proof.
  induction l as [|x l IH]; cbn [max0 fold_right].
  - apply Qle_refl.
  - apply Q.max_le_iff. right. exact IH.
Qed.

Lemma max0_snoc (l : list Q) (x : Q) : max0 (l ++ [x]) == Qmax (max0 l) x.
Proof.
  induction l as [|y l IH]; cbn [max0 fold_right app].
  - apply Q.max_comm.
  - fold (max0 (l ++ [x])). fold (max0 l). rewrite IH.
    apply Q.max_assoc.
Qed.

Section FaceFacts.
Context {buffer image descriptor : Type}.
Variable cap : capabilities buffer image descriptor.

Lemma processItem_candidate (live : descriptor) (item : value) (st : loopState) :
  processItem cap live item st
  = (c <- candidate cap item ;; Ok (record cap live st c))%js.
Proof.
  unfold processItem, candidate.
  destruct (get item "photo") as [photo|e]; cbn [bind]; [|reflexivity].
  destruct photo; try reflexivity.
  destruct (nth_error (split "," s) 1) as [encoded|]; [|reflexivity].
  destruct (detectFace cap (Buffer_from_base64 cap encoded)) as [[d|]|e];
    reflexivity.
Qed.

Lemma processItems_candidates (live : descriptor) (items : list value) :
  forall st,
    processItems cap live items st
    = (cs <- candidates cap items ;; Ok (fold_left (record cap live) cs st))%js.
Proof.
  induction items as [|item rest IH]; intro st; cbn [processItems candidates].
  - reflexivity.
  - rewrite processItem_candidate.
    destruct (candidate cap item) as [c|e]; cbn [bind]; [|reflexivity].
    rewrite IH.
    destruct (candidates cap rest) as [cs|e]; reflexivity.
Qed.

Lemma fold_record_faceResults (live : descriptor)
    (cs : list (string * option descriptor)) :
  forall st,
    faceResults (fold_left (record cap live) cs st)
    = faceResults st ++ map (matchResult cap live) cs.
Proof.
  induction cs as [|c cs IH]; intro st; cbn [fold_left map].
  - rewrite app_nil_r. reflexivity.
  - rewrite IH. unfold record.
    destruct (snd c); cbn [faceResults]; rewrite <- app_assoc; reflexivity.
Qed.

Lemma record_matched (live : descriptor) (st : loopState)
    (c : string * option descriptor) :
  overallMatch (record cap live st c)
  = isMatch (matchResult cap live c) || overallMatch st.
Proof.
  unfold record, matchResult.
  destruct (snd c) as [d|]; cbn [overallMatch isMatch]; [|reflexivity].
  destruct (Qltb (euclideanDistance cap live d) (1 # 2)); reflexivity.
Qed.

Lemma fold_record_matched (live : descriptor)
    (cs : list (string * option descriptor)) :
  forall st,
    overallMatch (fold_left (record cap live) cs st)
    = overallMatch st || existsb isMatch (map (matchResult cap live) cs).
Proof.
  induction cs as [|c cs IH]; intro st; cbn [fold_left map existsb].
  - rewrite orb_false_r. reflexivity.
  - rewrite IH, record_matched.
    destruct (isMatch (matchResult cap live c)), (overallMatch st); reflexivity.
Qed.

(** The update of [bestSimilarity] keeps the larger number. *)
Lemma keep_larger (b s : Q) : (if Qltb b s then s else b) == Qmax b s.
Proof.
  destruct (Qltb b s) eqn:E.
  - apply Qltb_lt in E. rewrite Q.max_r by (apply Qlt_le_weak; exact E).
    reflexivity.
  - apply Qltb_ge in E. rewrite Q.max_l by exact E. reflexivity.
Qed.

Lemma record_best (live : descriptor) (st : loopState)
    (c : string * option descriptor) :
  0 <= bestSimilarity st ->
  0 <= bestSimilarity (record cap live st c)
  /\ round4 (bestSimilarity (record cap live st c))
     == Qmax (round4 (bestSimilarity st)) (similarity (matchResult cap live c)).
Proof.
  intro H0. unfold record, matchResult.
  destruct (snd c) as [d|]; cbn [bestSimilarity similarity].
  - set (s := double (1 - euclideanDistance cap live d)).
    pose proof (keep_larger (bestSimilarity st) s) as K. split.
    + rewrite K. apply Q.max_le_iff. left. exact H0.
    + rewrite (round4_comp _ _ K). apply round4_max.
  - split; [exact H0|].
    rewrite Q.max_l by (apply round4_nonneg; exact H0). reflexivity.
Qed.

Lemma fold_record_best (live : descriptor)
    (cs : list (string * option descriptor)) :
  forall st,
    0 <= bestSimilarity st ->
    round4 (bestSimilarity (fold_left (record cap live) cs st))
    == Qmax (round4 (bestSimilarity st))
         (max0 (map similarity (map (matchResult cap live) cs))).
Proof.
  induction cs as [|c cs IH]; intros st H0; cbn [fold_left map max0 fold_right].
  - rewrite Q.max_l by (apply round4_nonneg; exact H0). reflexivity.
  - destruct (record_best live st c H0) as [H1 E].
    rewrite (IH _ H1), E. fold (max0 (map similarity (map (matchResult cap live) cs))).
    symmetry. apply Q.max_assoc.
Qed.

(** *** When the handler answers with an outcome *)


Lemma body_candidate_throws (account : string) (photo : buffer)
    (items : list value) (live : descriptor) (e : exn) :
  fetchAccountData cap account = Ok items ->
  detectFace cap photo = Ok (Some live) ->
  candidates cap items = Throw e ->
  compareFacesBody cap account photo = Throw e.
Proof.
  intros Hf Hd Hc. unfold compareFacesBody.
  rewrite Hf. cbn [bind]. rewrite Hd. cbn [bind].
  rewrite processItems_candidates, Hc. reflexivity.
Qed.

Lemma compareFaces_valid (req : request buffer) (account : string)
    (photo : buffer) :
  accountNumber req = Some account -> account <> EmptyString ->
  livePhoto req = Some photo ->
  compareFaces cap req
  = match compareFacesBody cap account photo with
    | Ok r => r
    | Throw e => Failure 500 "Failed to compare faces" (Some e)
    end.
Proof.
  intros Ha Hne Hp. unfold compareFaces. rewrite Ha, Hp.
  destruct (String.eqb account EmptyString) eqn:E; [|reflexivity].
  apply String.eqb_eq in E. contradiction.
Qed.

(** An outcome is returned only by a complete run: a well-formed request,
    account data that passed validation, a face in the live photo and
    every stored photo taken through the image pipeline. *)
Lemma outcome_inversion (req : request buffer) (m : bool) (b : Q)
    (fs : list faceResult) :
  compareFaces cap req = Outcome m b fs ->
  exists account photo items live cs,
    accountNumber req = Some account /\ account <> EmptyString
    /\ livePhoto req = Some photo
    /\ fetchAccountData cap account = Ok items
    /\ detectFace cap photo = Ok (Some live)
    /\ candidates cap items = Ok cs
    /\ m = overallMatch (fold_left (record cap live) cs initialState)
    /\ b = round4 (bestSimilarity (fold_left (record cap live) cs initialState))
    /\ fs = map (matchResult cap live) cs.
Proof.
  unfold compareFaces.
  destruct (accountNumber req) as [account|] eqn:A; [|discriminate].
  destruct (livePhoto req) as [photo|] eqn:P; [|discriminate].
  destruct (String.eqb account EmptyString) eqn:E; [discriminate|].
  apply String.eqb_neq in E.
  destruct (compareFacesBody cap account photo) as [r|e] eqn:B; [|discriminate].
  intros ->. revert B. unfold compareFacesBody.
  destruct (fetchAccountData cap account) as [items|e] eqn:F; cbn [bind]; [|discriminate].
  destruct (detectFace cap photo) as [[live|]|e] eqn:D; cbn [bind];
    [|discriminate|discriminate].
  rewrite processItems_candidates.
  destruct (candidates cap items) as [cs|e] eqn:C; cbn [bind]; [|discriminate].
  intro B. injection B as Hm Hb Hfs.
  exists account, photo, items, live, cs.
  rewrite fold_record_faceResults in Hfs. cbn [initialState faceResults app] in Hfs.
  subst m b fs.
  repeat (split; [first [reflexivity | assumption]|]). reflexivity.
Qed.

Lemma candidates_nth (items : list value) :
  forall cs i item,
    candidates cap items = Ok cs ->
    nth_error items i = Some item ->
    exists c, candidate cap item = Ok c /\ nth_error cs i = Some c.
Proof.
  induction items as [|x rest IH]; intros cs i item Hc Hn.
  - destruct i; discriminate.
  - cbn [candidates] in Hc.
    destruct (candidate cap x) as [c|e] eqn:Cx; cbn [bind] in Hc; [|discriminate].
    destruct (candidates cap rest) as [cs'|e] eqn:Cr; cbn [bind] in Hc; [|discriminate].
    injection Hc as <-.
    destruct i as [|i]; cbn [nth_error] in *.
    + injection Hn as <-. exists c. split; [exact Cx|reflexivity].
    + apply (IH cs' i item eq_refl Hn).
Qed.

Lemma candidates_Forall2 (items : list value) :
  forall cs,
    candidates cap items = Ok cs <->
    Forall2 (fun item c => candidate cap item = Ok c) items cs.
Proof.
  induction items as [|x rest IH]; intro cs; cbn [candidates].
  - split.
    + intro H. injection H as <-. constructor.
    + intro H. inversion H. reflexivity.
  - split.
    + destruct (candidate cap x) as [c|e] eqn:Cx; cbn [bind]; [|discriminate].
      destruct (candidates cap rest) as [cs'|e] eqn:Cr; cbn [bind]; [|discriminate].
      intro H. injection H as <-. constructor; [exact Cx|].
      apply IH. reflexivity.
    + intro H. inversion H as [|? c ? cs' Hx Hrest]; subst.
      rewrite Hx. cbn [bind].
      apply IH in Hrest. rewrite Hrest. reflexivity.
Qed.

Lemma candidates_Exists_throw (items : list value) :
  Exists (fun item => exists e, candidate cap item = Throw e) items ->
  exists e, candidates cap items = Throw e.
Proof.
  induction 1 as [x rest [e Hx]|x rest _ [e IH]]; cbn [candidates].
  - rewrite Hx. exists e. reflexivity.
  - destruct (candidate cap x) as [c|e']; cbn [bind].
    + rewrite IH. exists e. reflexivity.
    + exists e'. reflexivity.
Qed.

Lemma similarity_matchResult (live : descriptor) (c : string * option descriptor) :
  similarity (matchResult cap live c) = round4 (contribution cap live c).
Proof.
  unfold matchResult, contribution. destruct (snd c); reflexivity.
Qed.

Lemma round4_max0 (l : list Q) : round4 (max0 l) == max0 (map round4 l).
Proof.
  induction l as [|x l IH]; cbn [max0 fold_right map].
  - rewrite round4_zero. reflexivity.
  - fold (max0 l). fold (max0 (map round4 l)).
    rewrite round4_max, IH. reflexivity.
Qed.

Lemma outcome_best (live : descriptor) (cs : list (string * option descriptor)) :
  round4 (bestSimilarity (fold_left (record cap live) cs initialState))
  == max0 (map similarity (map (matchResult cap live) cs)).
Proof.
  rewrite fold_record_best by apply Qle_refl.
  cbn [initialState bestSimilarity]. rewrite round4_zero.
  apply Q.max_r. apply max0_nonneg.
Qed.

Lemma fold_record_no_face (live : descriptor)
    (cs : list (string * option descriptor)) :
  Forall (fun c => snd c = None) cs ->
  forall st, bestSimilarity (fold_left (record cap live) cs st) = bestSimilarity st.
Proof.
  induction 1 as [|c cs Hc _ IH]; intro st; cbn [fold_left]; [reflexivity|].
  rewrite IH. unfold record. rewrite Hc. reflexivity.
Qed.

(** C1 (amended).  When the handler returns an outcome, the returned
    bestSimilarity is the larger of 0 and the largest similarity of the
    returned Match Results; it is the 4-decimal rounding of the larger of 0
    and the largest similarity computed for a candidate, a candidate
    without a detected face counting 0; and when no candidate has a
    detected face it is 0. *)
Theorem best_similarity_floored_maximum (req : request buffer) (m : bool)
    (b : Q) (fs : list faceResult) :
  compareFaces cap req = Outcome m b fs ->
  b == max0 (map similarity fs)
  /\ (exists account photo items live cs,
        accountNumber req = Some account /\ livePhoto req = Some photo
        /\ fetchAccountData cap account = Ok items
        /\ detectFace cap photo = Ok (Some live)
        /\ candidates cap items = Ok cs
        /\ b == round4 (max0 (map (contribution cap live) cs))
        /\ (Forall (fun c => snd c = None) cs -> b = 0)).
Proof.
  intro H.
  destruct (outcome_inversion _ _ _ _ H)
    as (account & photo & items & live & cs & Ha & _ & Hp & Hf & Hd & Hc
        & _ & Hb & Hfs).
  subst b fs. split; [apply outcome_best|].
  exists account, photo, items, live, cs.
  repeat (split; [assumption|]). split.
  - rewrite outcome_best, round4_max0, !map_map.
    assert (E : map (fun x => similarity (matchResult cap live x)) cs
                = map (fun x => round4 (contribution cap live x)) cs).
    { apply map_ext. intro c. apply similarity_matchResult. }
    rewrite E. reflexivity.
  - intro Hnone. rewrite (fold_record_no_face live cs Hnone). reflexivity.
Qed.

(** C5.  When the handler returns an outcome, the overall isMatch flag is
    true exactly when some Match Result of the returned sequence has
    isMatch true. *)
Theorem overall_match_iff_some_match (req : request buffer) (m : bool)
    (b : Q) (fs : list faceResult) :
  compareFaces cap req = Outcome m b fs ->
  (m = true <-> exists r, In r fs /\ isMatch r = true).
Proof.
  intro H.
  destruct (outcome_inversion _ _ _ _ H)
    as (account & photo & items & live & cs & _ & _ & _ & _ & _ & _
        & Hm & _ & Hfs).
  subst m fs. rewrite fold_record_matched. cbn [initialState overallMatch orb].
  apply existsb_exists.
Qed.

(** C9.  When the handler returns an outcome, the returned bestSimilarity
    is not negative. *)
Theorem best_similarity_nonnegative (req : request buffer) (m : bool)
    (b : Q) (fs : list faceResult) :
  compareFaces cap req = Outcome m b fs -> 0 <= b.
Proof.
  intro H.
  destruct (outcome_inversion _ _ _ _ H)
    as (account & photo & items & live & cs & _ & _ & _ & _ & _ & _
        & _ & Hb & _).
  subst b. rewrite outcome_best. apply max0_nonneg.
Qed.

(** A turn of the loop leaves [bestSimilarity] alone or replaces it by the
    strictly greater similarity of the candidate it compared. *)
Lemma best_replaced_only_by_greater (live : descriptor) (item : value)
    (st st' : loopState) :
  processItem cap live item st = Ok st' ->
  bestSimilarity st' = bestSimilarity st
  \/ (bestSimilarity st < bestSimilarity st'
      /\ exists url d,
           candidate cap item = Ok (url, Some d)
           /\ bestSimilarity st' = double (1 - euclideanDistance cap live d)).
Proof.
  rewrite processItem_candidate.
  destruct (candidate cap item) as [[url od]|e] eqn:C; cbn [bind]; [|discriminate].
  intro H. injection H as <-. unfold record. cbn [snd].
  destruct od as [d|]; cbn [bestSimilarity]; [|left; reflexivity].
  destruct (Qltb (bestSimilarity st)
              (double (1 - euclideanDistance cap live d))) eqn:E.
  - right. apply Qltb_lt in E. split; [exact E|].
    exists url, d. split; reflexivity.
  - left. reflexivity.
Qed.

(** The loop reads the [photo] field of an item and nothing else. *)
Lemma processItem_reads_photo (live : descriptor) (item item' : value)
    (st : loopState) :
  get item "photo" = get item' "photo" ->
  processItem cap live item st = processItem cap live item' st.
Proof.
  intro H. unfold processItem. rewrite H. reflexivity.
Qed.

(** *** Account data *)

Lemma lacks_get (item : value) (k : string) :
  lacks item k -> get item k = Throw TypeError \/ get item k = Ok Undefined.
Proof.
  destruct item; cbn [lacks get]; intro H; auto.
  rewrite H. auto.
Qed.

Lemma checkItems_incomplete (items : list value) :
  Exists (fun item => lacks item "photo" \/ lacks item "signature") items ->
  exists e, checkItems items = Throw e.
Proof.
  induction 1 as [item rest Hl|item rest _ [e IH]]; cbn [checkItems].
  - destruct (get item "photo") as [photo|e] eqn:P; cbn [bind];
      [|exists e; reflexivity].
    destruct (truthy photo) eqn:T; cbn [negb];
      [|exists (JsError missingField); reflexivity].
    destruct Hl as [Hl|Hl]; apply lacks_get in Hl.
    + destruct Hl as [Hl|Hl]; rewrite Hl in P; [discriminate|].
      injection P as <-. discriminate T.
    + destruct Hl as [Hl|Hl]; rewrite Hl; cbn [bind truthy negb].
      * exists TypeError. reflexivity.
      * exists (JsError missingField). reflexivity.
  - destruct (get item "photo") as [photo|e'] eqn:P; cbn [bind];
      [|exists e'; reflexivity].
    destruct (truthy photo); cbn [negb];
      [|exists (JsError missingField); reflexivity].
    destruct (get item "signature") as [sig|e'] eqn:S; cbn [bind];
      [|exists e'; reflexivity].
    destruct (truthy sig); cbn [negb];
      [|exists (JsError missingField); reflexivity].
    exists e. exact IH.
Qed.

Lemma fetchAccountData_incomplete (account : string) (data : value)
    (items : list value) :
  axios_request cap account = Ok data ->
  get data "approved" = Ok (VArr items) ->
  Exists (fun item => lacks item "photo" \/ lacks item "signature") items ->
  exists e, fetchAccountData cap account = Throw e.
Proof.
  intros Hr Ha Hl. unfold fetchAccountData.
  rewrite Hr. cbn [bind]. rewrite Ha. cbn [bind truthy isArray elements negb orb].
  destruct (List.length items =? 0)%nat;
    [exists (JsError missingApproved); reflexivity|].
  destruct (checkItems_incomplete items Hl) as [e He].
  rewrite He. exists e. reflexivity.
Qed.

Lemma fetchAccountData_empty (account : string) (data approved : value) :
  axios_request cap account = Ok data ->
  get data "approved" = Ok approved ->
  elements approved = [] ->
  fetchAccountData cap account = Throw (JsError missingApproved).
Proof.
  intros Hr Ha He. unfold fetchAccountData.
  rewrite Hr. cbn [bind]. rewrite Ha. cbn [bind]. rewrite He.
  cbn [List.length Nat.eqb]. rewrite orb_true_r. reflexivity.
Qed.

Lemma compareFaces_fetch_throws (req : request buffer) (account : string)
    (e : exn) :
  accountNumber req = Some account ->
  fetchAccountData cap account = Throw e ->
  isFailure (compareFaces cap req)
  /\ (account <> EmptyString ->
      forall photo, livePhoto req = Some photo ->
      compareFaces cap req = Failure 500 "Failed to compare faces" (Some e)).
Proof.
  intros Ha Hf. split.
  - unfold compareFaces. rewrite Ha.
    destruct (livePhoto req); [|exact I].
    destruct (String.eqb account EmptyString); [exact I|].
    unfold compareFacesBody. rewrite Hf. exact I.
  - intros Hne photo Hp. rewrite (compareFaces_valid req account photo Ha Hne Hp).
    unfold compareFacesBody. rewrite Hf. reflexivity.
Qed.

(** C8.  A request with an account number and a live photo, for an
    account whose store response has an empty approved list (or none at
    all), fails with status 500 and the "approved array is missing or
    empty" error.  That response differs from the one for a live photo
    without a face, and no outcome is returned. *)
Theorem empty_candidate_set_fails (req : request buffer) (account : string)
    (photo : buffer) (data approved : value) :
  accountNumber req = Some account -> account <> EmptyString ->
  livePhoto req = Some photo ->
  axios_request cap account = Ok data ->
  get data "approved" = Ok approved ->
  elements approved = [] ->
  compareFaces cap req
  = Failure 500 "Failed to compare faces" (Some (JsError missingApproved))
  /\ compareFaces cap req <> noLiveFace
  /\ isFailure (compareFaces cap req).
Proof.
  intros Ha Hne Hp Hr Hg He.
  pose proof (fetchAccountData_empty account data approved Hr Hg He) as Hf.
  destruct (compareFaces_fetch_throws req account _ Ha Hf) as [Hfail Hresp].
  rewrite (Hresp Hne photo Hp).
  split; [reflexivity|]. split; [discriminate|exact I].
Qed.

(** C10.  If an entry of the account's approved list has no photo field
    or no signature field, the request fails: no outcome is returned, and
    a request with an account number and a live photo gets status 500. *)
Theorem incomplete_entry_fails_request (req : request buffer)
    (account : string) (data : value) (items : list value) :
  accountNumber req = Some account ->
  axios_request cap account = Ok data ->
  get data "approved" = Ok (VArr items) ->
  Exists (fun item => lacks item "photo" \/ lacks item "signature") items ->
  isFailure (compareFaces cap req)
  /\ (account <> EmptyString ->
      forall photo, livePhoto req = Some photo ->
      exists e,
        compareFaces cap req = Failure 500 "Failed to compare faces" (Some e)).
Proof.
  intros Ha Hr Hg Hl.
  destruct (fetchAccountData_incomplete account data items Hr Hg Hl) as [e Hf].
  destruct (compareFaces_fetch_throws req account e Ha Hf) as [Hfail Hresp].
  split; [exact Hfail|].
  intros Hne photo Hp. exists e. apply (Hresp Hne photo Hp).
Qed.

(** C7 (amended).  A request whose live photo goes through the image
    pipeline and shows no face never gets an outcome; when the request has
    an account number and the account data was fetched and passed
    validation, the response is the "No face detected in the live photo"
    failure with status 400. *)
Theorem no_live_face_fails (req : request buffer) (photo : buffer) :
  livePhoto req = Some photo ->
  detectFace cap photo = Ok None ->
  isFailure (compareFaces cap req)
  /\ (forall account items,
        accountNumber req = Some account -> account <> EmptyString ->
        fetchAccountData cap account = Ok items ->
        compareFaces cap req = noLiveFace).
Proof.
  intros Hp Hd. split.
  - unfold compareFaces. rewrite Hp.
    destruct (accountNumber req) as [account|]; [|exact I].
    destruct (String.eqb account EmptyString); [exact I|].
    unfold compareFacesBody.
    destruct (fetchAccountData cap account); cbn [bind]; [|exact I].
    rewrite Hd. exact I.
  - intros account items Ha Hne Hf.
    rewrite (compareFaces_valid req account photo Ha Hne Hp).
    unfold compareFacesBody. rewrite Hf. cbn [bind]. rewrite Hd. reflexivity.
Qed.

(** *** Candidates one by one *)



(** A candidate that was compared and whose similarity rounds to 0 gets
    the Match Result of a candidate without a face. *)
Lemma compared_rounding_to_zero (live : descriptor) (url : string)
    (d : descriptor) :
  round4 (double (1 - euclideanDistance cap live d)) = 0 ->
  matchResult cap live (url, Some d)
  = {| faceUrl := url; isMatch := false; similarity := 0 |}.
Proof.
  intro H. unfold matchResult. cbn [snd fst]. rewrite H.
  replace (Qltb (euclideanDistance cap live d) (1 # 2)) with false; [reflexivity|].
  symmetry. apply Qltb_ge.
  destruct (Qlt_le_dec (euclideanDistance cap live d) (1 # 2)) as [L|L];
    [|exact L].
  exfalso. apply (proj1 (similarity_threshold _)) in L.
  rewrite H in L. apply L. reflexivity.
Qed.

(** C3 (amended).  In an outcome, the Match Result of a candidate whose
    stored photo shows no face is exactly the photo's URL, isMatch false
    and similarity 0; it has no other part.  A candidate that was compared
    and whose similarity rounds to 0 gets the same Match Result. *)
Theorem failed_detection_result (req : request buffer) (m : bool) (b : Q)
    (fs : list faceResult) (account : string) (items : list value) :
  compareFaces cap req = Outcome m b fs ->
  accountNumber req = Some account ->
  fetchAccountData cap account = Ok items ->
  forall i item url,
    nth_error items i = Some item ->
    candidate cap item = Ok (url, None) ->
    nth_error fs i
    = Some {| faceUrl := url; isMatch := false; similarity := 0 |}
    /\ (forall live d,
          round4 (double (1 - euclideanDistance cap live d)) = 0 ->
          matchResult cap live (url, Some d)
          = {| faceUrl := url; isMatch := false; similarity := 0 |}).
Proof.
  intros H Ha Hf i item url Hi Hc.
  split; [|intros live d; apply compared_rounding_to_zero].
  destruct (outcome_inversion _ _ _ _ H)
    as (account' & photo & items' & live & cs & Ha' & _ & _ & Hf' & _ & Hcs
        & _ & _ & Hfs).
  assert (account' = account) by congruence. subst account'.
  assert (items' = items) by congruence. subst items'.
  destruct (candidates_nth items cs i item Hcs Hi) as (c & Hc' & Hn).
  assert (c = (url, None)) by congruence. subst c fs.
  rewrite nth_error_map, Hn. reflexivity.
Qed.

(** C6 (amended).  For a candidate whose stored photo shows a face, the
    loop computes the similarity as the double 1 - distance, with no
    clamping, and the match flag distance < 1/2.  The computed similarity
    differs from the exact 1 - distance by at most a 2^-53 part of it, it
    is negative only for a distance above 1 and it is negative from the
    distance 1 + 2^-1022 on.  The loop appends the Match Result with that
    flag and the similarity at four decimals, and keeps the similarity as
    the best one if it is strictly greater.  In the outcome the
    candidate's Match Result has isMatch true exactly when the distance is
    below 1/2, and its similarity is the computed one at four decimals,
    within 0.00005 of it. *)
Theorem detected_candidate_similarity (live : descriptor) (item : value)
    (url : string) (d : descriptor) :
  candidate cap item = Ok (url, Some d) ->
  let distance := euclideanDistance cap live d in
  let similarity_ := double (1 - distance) in
  let match_ := Qltb distance (1 # 2) in
  (match_ = true <-> distance < 1 # 2)
  /\ (2 ^ (-1022) <= Qabs (1 - distance) ->
      Qabs (similarity_ - (1 - distance)) <= Qabs (1 - distance) / 2 ^ 53)
  /\ (similarity_ < 0 -> 1 < distance)
  /\ (1 + 2 ^ (-1022) <= distance -> similarity_ < 0)
  /\ (forall st,
        processItem cap live item st
        = Ok {| faceResults :=
                  faceResults st
                  ++ [{| faceUrl := url; isMatch := match_;
                         similarity := round4 similarity_ |}];
                bestSimilarity := if Qltb (bestSimilarity st) similarity_
                        then similarity_ else bestSimilarity st;
                overallMatch := if match_ then true else overallMatch st |})
  /\ (forall req m b fs account photo items i,
        compareFaces cap req = Outcome m b fs ->
        accountNumber req = Some account ->
        livePhoto req = Some photo ->
        fetchAccountData cap account = Ok items ->
        detectFace cap photo = Ok (Some live) ->
        nth_error items i = Some item ->
        exists r,
          nth_error fs i = Some r
          /\ faceUrl r = url
          /\ (isMatch r = true <-> distance < 1 # 2)
          /\ similarity r = round4 similarity_
          /\ (Qabs similarity_ < 10 ^ 21 ->
              Qabs (similarity r - similarity_) <= 1 # 20000)).
Proof.
  intros Hc distance similarity_ match_.
  split; [apply Qltb_lt|].
  split; [apply double_close|].
  split.
  { intro Hneg. destruct (Qlt_le_dec 1 distance) as [L|L]; [exact L|].
    exfalso. apply (Qlt_not_le _ _ Hneg). apply double_nonneg. lra. }
  split.
  { intro Hfar.
    apply Qle_lt_trans with (double (- 2 ^ (-1022)));
      [|vm_compute; reflexivity].
    apply double_mono. revert Hfar. generalize (2 ^ (-1022)). intros p Hfar.
    lra. }
  split.
  - intro st. rewrite processItem_candidate, Hc. reflexivity.
  - intros req m b fs account photo items i H Ha Hp Hf Hd Hi.
    destruct (outcome_inversion _ _ _ _ H)
      as (account' & photo' & items' & live' & cs & Ha' & _ & Hp' & Hf' & Hd'
          & Hcs & _ & _ & Hfs).
    assert (account' = account) by congruence. subst account'.
    assert (photo' = photo) by congruence. subst photo'.
    assert (items' = items) by congruence. subst items'.
    assert (live' = live) by congruence. subst live'.
    destruct (candidates_nth items cs i item Hcs Hi) as (c & Hc' & Hn).
    assert (c = (url, Some d)) by congruence. subst c fs.
    exists (matchResult cap live (url, Some d)).
    rewrite nth_error_map, Hn.
    split; [reflexivity|]. split; [reflexivity|].
    split; [apply Qltb_lt|]. split; [reflexivity|].
    intro B. apply (round4_close similarity_ B).
Qed.

End FaceFacts.

(* ------------------------------------------------------------------ *)
(** ** The handler on sample requests *)

Example faces_one_blank_one_near :
  compareFaces mixedWorld liveRequest
  = Outcome true (4 # 5)
      [ {| faceUrl := blankUrl; isMatch := false; similarity := 0 |};
        {| faceUrl := nearUrl; isMatch := true; similarity := 4 # 5 |} ].
Proof. vm_compute. reflexivity. Qed.

Example faces_far :
  compareFaces farWorld liveRequest
  = Outcome false 0
      [ {| faceUrl := farUrl; isMatch := false; similarity := - (1 # 2) |} ].
Proof. vm_compute. reflexivity. Qed.

Example faces_rounding :
  compareFaces thirdWorld liveRequest
  = Outcome true (6667 # 10000)
      [ {| faceUrl := nearUrl; isMatch := true; similarity := 6667 # 10000 |} ].
Proof. vm_compute. reflexivity. Qed.

(** At the double nearest to 0.00005 the subtraction rounds up: the
    similarity at four decimals is 1, where the exact difference would
    give 0.9999. *)
Example faces_double_subtraction :
  compareFaces closestWorld liveRequest
  = Outcome true 1
      [ {| faceUrl := nearUrl; isMatch := true; similarity := 1 |} ].
Proof. vm_compute. reflexivity. Qed.

Example faces_threshold :
  compareFaces
    (world (VArr [entry nearUrl]) [("live"%string, 0); ("near"%string, 1 # 2)])
    liveRequest
  = Outcome false (1 # 2)
      [ {| faceUrl := nearUrl; isMatch := false; similarity := 1 # 2 |} ].
Proof. vm_compute. reflexivity. Qed.

Example faces_corrupt :
  compareFaces corruptWorld liveRequest
  = Failure 500 "Failed to compare faces" (Some unsupportedFormat).
Proof. vm_compute. reflexivity. Qed.

Example faces_no_live_face :
  compareFaces facelessWorld liveRequest
  = Failure 400 "No face detected in the live photo" None.
Proof. vm_compute. reflexivity. Qed.

Example faces_empty_no_live_face :
  compareFaces emptyWorld liveRequest
  = Failure 500 "Failed to compare faces" (Some (JsError missingApproved)).
Proof. vm_compute. reflexivity. Qed.

Example faces_unsigned_entry :
  compareFaces unsignedWorld liveRequest
  = Failure 500 "Failed to compare faces" (Some (JsError missingField)).
Proof. vm_compute. reflexivity. Qed.

Example faces_not_multipart :
  postCompareFaces mixedWorld jsonRequest = Throw TypeError.
Proof. reflexivity. Qed.

Example faces_missing_live_photo :
  compareFaces mixedWorld
    {| accountNumber := Some "0012345"%string; livePhoto := None |}
  = Failure 400 "accountNumber and livePhoto are required" None.
Proof. reflexivity. Qed.

(* ------------------------------------------------------------------ *)
(** ** The theorems at sample inputs *)

Local Open Scope string_scope.

(** Two 2x2 images that differ by 50 everywhere. *)
Lemma signature_similarity_formula_witness :
  info_width (smallImage x0a) = info_width (smallImage x3c)
  /\ info_height (smallImage x0a) = info_height (smallImage x3c)
  /\ (0 < info_width (smallImage x0a) * info_height (smallImage x0a))%N
  /\ similarity_of (smallImage x0a) (smallImage x3c)
     = Num (1 - inject_Z 200 / (inject_Z 4 * 255))
  /\ compareRaw (fun _ => EmptyString) (smallImage x0a) (smallImage x3c)
     = SigOk "0.8039".
Proof.
  split; [reflexivity|]. split; [reflexivity|]. split; [reflexivity|].
  pose proof (signature_similarity_formula (fun _ => EmptyString)
                (smallImage x0a) (smallImage x3c)
                eq_refl eq_refl eq_refl eq_refl eq_refl) as H.
  cbv zeta in H. destruct H as (Hs & _ & Hr & _).
  split; [exact Hs|exact Hr].
Defined.

(** The only candidate is at distance 3/2: its similarity is -1/2, the
    largest there is, and the returned bestSimilarity is 0. *)
Lemma best_similarity_not_maximum :
  exists m b fs mx,
    compareFaces farWorld liveRequest = Outcome m b fs
    /\ maxOf (map similarity fs) = Some mx
    /\ mx == - (1 # 2)
    /\ ~ b == mx.
Proof.
  exists false, 0,
    [ {| faceUrl := farUrl; isMatch := false; similarity := - (1 # 2) |} ],
    (- (1 # 2)).
  split; [vm_compute; reflexivity|]. split; [reflexivity|].
  split; [reflexivity|]. discriminate.
Qed.

Lemma best_similarity_floored_maximum_witness :
  compareFaces mixedWorld liveRequest
  = Outcome true (4 # 5)
      [ {| faceUrl := blankUrl; isMatch := false; similarity := 0 |};
        {| faceUrl := nearUrl; isMatch := true; similarity := 4 # 5 |} ]
  /\ (4 # 5) == max0 [0; 4 # 5].
Proof.
  split; [vm_compute; reflexivity|].
  exact (proj1 (best_similarity_floored_maximum mixedWorld liveRequest
                  true (4 # 5) _ eq_refl)).
Defined.



(** In [blankWorld] the stored photo shows no face; in [unitWorld] it
    shows a face at distance 1 from the live one.  The two responses are
    the same, Match Result included. *)
Lemma failed_detection_indistinguishable :
  candidate blankWorld (entry blankUrl) = Ok (blankUrl, None)
  /\ candidate unitWorld (entry blankUrl) = Ok (blankUrl, Some 1)
  /\ compareFaces blankWorld liveRequest
     = Outcome false 0
         [ {| faceUrl := blankUrl; isMatch := false; similarity := 0 |} ]
  /\ compareFaces unitWorld liveRequest = compareFaces blankWorld liveRequest.
Proof.
  repeat split; vm_compute; reflexivity.
Qed.

Lemma failed_detection_result_witness :
  compareFaces mixedWorld liveRequest
  = Outcome true (4 # 5)
      [ {| faceUrl := blankUrl; isMatch := false; similarity := 0 |};
        {| faceUrl := nearUrl; isMatch := true; similarity := 4 # 5 |} ]
  /\ candidate mixedWorld (entry blankUrl) = Ok (blankUrl, None)
  /\ nth_error
       [ {| faceUrl := blankUrl; isMatch := false; similarity := 0 |};
         {| faceUrl := nearUrl; isMatch := true; similarity := 4 # 5 |} ] 0
     = Some {| faceUrl := blankUrl; isMatch := false; similarity := 0 |}.
Proof.
  split; [vm_compute; reflexivity|]. split; [reflexivity|].
  exact (proj1 (failed_detection_result mixedWorld liveRequest true (4 # 5) _
                  "0012345" [entry blankUrl; entry nearUrl]
                  eq_refl eq_refl eq_refl 0%nat (entry blankUrl) blankUrl
                  eq_refl eq_refl)).
Defined.

Lemma overall_match_iff_some_match_witness :
  compareFaces mixedWorld liveRequest
  = Outcome true (4 # 5)
      [ {| faceUrl := blankUrl; isMatch := false; similarity := 0 |};
        {| faceUrl := nearUrl; isMatch := true; similarity := 4 # 5 |} ]
  /\ (true = true <->
      exists r,
        In r [ {| faceUrl := blankUrl; isMatch := false; similarity := 0 |};
               {| faceUrl := nearUrl; isMatch := true; similarity := 4 # 5 |} ]
        /\ isMatch r = true).
Proof.
  split; [vm_compute; reflexivity|].
  exact (overall_match_iff_some_match mixedWorld liveRequest true (4 # 5) _
           eq_refl).
Defined.

(** The stored face is at distance 1/32: the loop computes the
    similarity 31/32, which is 0.96875, and the Match Result carries
    0.9688, not 1 - distance. *)
Lemma detected_similarity_rounded :
  candidate closeWorld (entry nearUrl) = Ok (nearUrl, Some (1 # 32))
  /\ euclideanDistance closeWorld 0 (1 # 32) = 1 # 32
  /\ exists r,
       compareFaces closeWorld liveRequest = Outcome true (1211 # 1250) [r]
       /\ similarity r = 1211 # 1250
       /\ ~ similarity r == 1 - euclideanDistance closeWorld 0 (1 # 32).
Proof.
  split; [reflexivity|]. split; [vm_compute; reflexivity|].
  exists {| faceUrl := nearUrl; isMatch := true; similarity := 1211 # 1250 |}.
  split; [vm_compute; reflexivity|]. split; [reflexivity|].
  vm_compute. discriminate.
Qed.

(** A candidate at distance 3/2: the similarity is -1/2, below zero. *)
Lemma detected_candidate_similarity_witness :
  candidate farWorld (entry farUrl) = Ok (farUrl, Some (3 # 2))
  /\ euclideanDistance farWorld 0 (3 # 2) = 3 # 2
  /\ double (1 - euclideanDistance farWorld 0 (3 # 2)) < 0
  /\ processItem farWorld 0 (entry farUrl) initialState
     = Ok {| faceResults :=
               [{| faceUrl := farUrl;
                   isMatch := Qltb (euclideanDistance farWorld 0 (3 # 2)) (1 # 2);
                   similarity :=
                     round4 (double (1 - euclideanDistance farWorld 0 (3 # 2))) |}];
             bestSimilarity :=
               if Qltb 0 (double (1 - euclideanDistance farWorld 0 (3 # 2)))
               then double (1 - euclideanDistance farWorld 0 (3 # 2)) else 0;
             overallMatch :=
               if Qltb (euclideanDistance farWorld 0 (3 # 2)) (1 # 2)
               then true else false |}.
Proof.
  split; [reflexivity|]. split; [vm_compute; reflexivity|].
  pose proof (detected_candidate_similarity farWorld 0 (entry farUrl) farUrl
                (3 # 2) eq_refl) as H.
  cbv zeta in H. destruct H as (_ & _ & _ & Hneg & Hstep & _).
  split; [apply Hneg; vm_compute; discriminate|].
  exact (Hstep initialState).
Defined.

(** The account has no approved entry and the live photo shows no face:
    the response is the account-data failure, not the no-face one. *)
Lemma no_live_face_other_failure :
  livePhoto liveRequest = Some "live"
  /\ detectFace emptyWorld "live" = Ok None
  /\ compareFaces emptyWorld liveRequest
     = Failure 500 "Failed to compare faces" (Some (JsError missingApproved))
  /\ compareFaces emptyWorld liveRequest <> noLiveFace.
Proof.
  split; [reflexivity|]. split; [reflexivity|].
  split; [vm_compute; reflexivity|]. vm_compute. discriminate.
Qed.

Lemma no_live_face_fails_witness :
  livePhoto liveRequest = Some "live"
  /\ detectFace facelessWorld "live" = Ok None
  /\ fetchAccountData facelessWorld "0012345" = Ok [entry nearUrl]
  /\ compareFaces facelessWorld liveRequest = noLiveFace.
Proof.
  split; [reflexivity|]. split; [reflexivity|]. split; [reflexivity|].
  assert (Hne : "0012345" <> EmptyString) by discriminate.
  exact (proj2 (no_live_face_fails facelessWorld liveRequest "live"
                  eq_refl eq_refl)
           "0012345" [entry nearUrl] eq_refl Hne eq_refl).
Defined.

Lemma empty_candidate_set_fails_witness :
  axios_request emptyWorld "0012345" = Ok (VObj [("approved", VArr [])])
  /\ compareFaces emptyWorld liveRequest
     = Failure 500 "Failed to compare faces" (Some (JsError missingApproved)).
Proof.
  split; [reflexivity|].
  assert (Hne : "0012345" <> EmptyString) by discriminate.
  exact (proj1 (empty_candidate_set_fails emptyWorld liveRequest "0012345"
                  "live" (VObj [("approved", VArr [])]) (VArr [])
                  eq_refl Hne eq_refl eq_refl eq_refl eq_refl)).
Defined.

(** The best similarity is 0 next to a Match Result with similarity
    -1/2. *)
Lemma best_similarity_nonnegative_witness :
  compareFaces farWorld liveRequest
  = Outcome false 0
      [ {| faceUrl := farUrl; isMatch := false; similarity := - (1 # 2) |} ]
  /\ 0 <= 0.
Proof.
  split; [vm_compute; reflexivity|].
  exact (best_similarity_nonnegative farWorld liveRequest false 0 _ eq_refl).
Defined.

(** The second entry has a photo and no signature. *)
Lemma incomplete_entry_fails_request_witness :
  get (VObj [("approved", VArr [entry blankUrl; VObj [("photo", VStr nearUrl)]])])
    "approved"
  = Ok (VArr [entry blankUrl; VObj [("photo", VStr nearUrl)]])
  /\ lacks (VObj [("photo", VStr nearUrl)]) "signature"
  /\ isFailure (compareFaces unsignedWorld liveRequest)
  /\ exists e,
       compareFaces unsignedWorld liveRequest
       = Failure 500 "Failed to compare faces" (Some e).
Proof.
  split; [reflexivity|]. split; [reflexivity|].
  assert (Hne : "0012345" <> EmptyString) by discriminate.
  assert (Hl : Exists (fun item => lacks item "photo" \/ lacks item "signature")
                 [entry blankUrl; VObj [("photo", VStr nearUrl)]]).
  { apply Exists_cons_tl. apply Exists_cons_hd. right. reflexivity. }
  pose proof (incomplete_entry_fails_request unsignedWorld liveRequest
                "0012345" _ _ eq_refl eq_refl eq_refl Hl) as [Hf Hr].
  split; [exact Hf|].
  exact (Hr Hne "live" eq_refl).
Defined.

(* ================================================================== *)
(** * Further properties of the servers *)

Local Close Scope string_scope.

(* ------------------------------------------------------------------ *)
(** ** Signature comparison: symmetry and buffers of the wrong size *)

Lemma abs_sub_comm (x y : number) :
  number_abs (number_sub x y) = number_abs (number_sub y x).
Proof.
  destruct x as [x|s|], y as [y|t|]; cbn [number_sub number_abs]; try reflexivity.
  - f_equal. destruct x as [xn xd], y as [yn yd].
    unfold Qminus, Qplus, Qopp, Qabs. cbn [Qnum Qden].
    rewrite (Pos.mul_comm yd xd). f_equal. lia.
  - destruct s, t; reflexivity.
Qed.

Lemma difference_loop_comm (data1 data2 : list byte) :
  forall k i acc,
    difference_loop data1 data2 k i acc = difference_loop data2 data1 k i acc.
Proof.
  induction k as [|k IH]; intros i acc; cbn [difference_loop]; [reflexivity|].
  rewrite abs_sub_comm. apply IH.
Qed.

Section SignatureEdges.
Variable Number_toString : Q -> string.

(** The response does not depend on which image is uploaded as
    [signature1] and which as [signature2]. *)
Theorem compareRaw_symmetric (img1 img2 : rawImage) :
  compareRaw Number_toString img1 img2 = compareRaw Number_toString img2 img1.
Proof.
  unfold compareRaw.
  rewrite (N.eqb_sym (info_width img2)), (N.eqb_sym (info_height img2)).
  destruct (info_width img1 =? info_width img2)%N eqn:W; cbn [negb orb];
    [|reflexivity].
  destruct (info_height img1 =? info_height img2)%N eqn:H; cbn [negb];
    [|reflexivity].
  apply N.eqb_eq in W. apply N.eqb_eq in H.
  unfold similarity_of. rewrite <- W, <- H, difference_loop_comm. reflexivity.
Qed.

Lemma add_NaN (acc : number) : number_add acc NaN = NaN.
Proof. destruct acc; reflexivity. Qed.

Lemma difference_loop_NaN (data1 data2 : list byte) :
  forall k i, difference_loop data1 data2 k i NaN = NaN.
Proof.
  induction k as [|k IH]; intro i; cbn [difference_loop]; [reflexivity|].
  cbn [number_add]. apply IH.
Qed.

Lemma difference_loop_missing (data1 data2 : list byte) :
  forall k i acc j,
    (i <= j < i + k)%nat ->
    buffer_get data1 j = NaN \/ buffer_get data2 j = NaN ->
    difference_loop data1 data2 k i acc = NaN.
Proof.
  induction k as [|k IH]; intros i acc j Hj Hm; [lia|].
  cbn [difference_loop].
  destruct (Nat.eq_dec i j) as [->|Hne].
  - assert (E : number_abs (number_sub (buffer_get data1 j) (buffer_get data2 j))
                = NaN).
    { destruct Hm as [-> | ->]; [reflexivity|].
      destruct (buffer_get data1 j); reflexivity. }
    rewrite E, add_NaN. apply difference_loop_NaN.
  - apply (IH (S i) _ j); [lia|exact Hm].
Qed.

Lemma buffer_get_short (buf : list byte) (j : nat) :
  (List.length buf <= j)%nat -> buffer_get buf j = NaN.
Proof.
  intro H. unfold buffer_get.
  rewrite (proj2 (nth_error_None buf j) H). reflexivity.
Qed.

(** When the two images agree in width and height and one of the buffers
    holds fewer bytes than width x height, the similarity in the response
    is the string NaN. *)
Theorem short_buffer_gives_NaN (img1 img2 : rawImage) :
  info_width img1 = info_width img2 ->
  info_height img1 = info_height img2 ->
  (List.length (data img1) < N.to_nat (info_width img1 * info_height img1)
   \/ List.length (data img2) < N.to_nat (info_width img1 * info_height img1))%nat ->
  compareRaw Number_toString img1 img2 = SigOk "NaN".
Proof.
  intros Hw Hh Hshort. unfold compareRaw.
  rewrite Hw, Hh, !N.eqb_refl. cbn [negb orb].
  unfold similarity_of.
  set (pc := N.to_nat (info_width img1 * info_height img1)) in *.
  assert (E : difference_loop (data img1) (data img2) pc 0 (Num 0) = NaN).
  { destruct Hshort as [H|H].
    - apply (difference_loop_missing _ _ pc 0%nat _ (List.length (data img1)));
        [lia|]. left. apply buffer_get_short. lia.
    - apply (difference_loop_missing _ _ pc 0%nat _ (List.length (data img2)));
        [lia|]. right. apply buffer_get_short. lia. }
  rewrite E. reflexivity.
Qed.

(** Images of width or height 0 that agree in both also give NaN. *)
Theorem empty_image_gives_NaN (img1 img2 : rawImage) :
  info_width img1 = info_width img2 ->
  info_height img1 = info_height img2 ->
  (info_width img1 * info_height img1)%N = 0%N ->
  compareRaw Number_toString img1 img2 = SigOk "NaN".
Proof.
  intros Hw Hh Hz. unfold compareRaw.
  rewrite Hw, Hh, !N.eqb_refl. cbn [negb orb].
  unfold similarity_of. rewrite Hz. reflexivity.
Qed.

Lemma buffer_get_firstn (buf : list byte) (n j : nat) :
  (j < n)%nat -> buffer_get (firstn n buf) j = buffer_get buf j.
Proof.
  intro H. unfold buffer_get. rewrite nth_error_firstn.
  destruct (Nat.ltb_spec j n); [reflexivity|lia].
Qed.

Lemma difference_loop_firstn (data1 data2 : list byte) (n : nat) :
  forall k i acc,
    (i + k <= n)%nat ->
    difference_loop (firstn n data1) (firstn n data2) k i acc
    = difference_loop data1 data2 k i acc.
Proof.
  induction k as [|k IH]; intros i acc H; cbn [difference_loop]; [reflexivity|].
  rewrite !buffer_get_firstn by lia. apply IH. lia.
Qed.

(** Only the first width x height bytes of each buffer count: bytes after
    them (a second channel, say) change nothing. *)
Theorem bytes_beyond_pixelCount_ignored (img1 img2 : rawImage) :
  let pixelCount := N.to_nat (info_width img1 * info_height img1) in
  compareRaw Number_toString img1 img2
  = compareRaw Number_toString
      {| data := firstn pixelCount (data img1);
         info_width := info_width img1; info_height := info_height img1 |}
      {| data := firstn pixelCount (data img2);
         info_width := info_width img2; info_height := info_height img2 |}.
Proof.
  intro pixelCount. unfold compareRaw, similarity_of.
  cbn [info_width info_height data]. fold pixelCount.
  rewrite difference_loop_firstn by lia. reflexivity.
Qed.

End SignatureEdges.

(* ------------------------------------------------------------------ *)
(** ** The similarity string read back *)

Lemma similarity_of_well_sized (img1 img2 : rawImage) :
  (0 < info_width img1 * info_height img1)%N ->
  List.length (data img1) = N.to_nat (info_width img1 * info_height img1) ->
  List.length (data img2) = N.to_nat (info_width img1 * info_height img1) ->
  exists s,
    similarity_of img1 img2 = Num s
    /\ s == 1 - inject_Z (sum_abs_diff (data img1) (data img2))
                / (inject_Z (Z.of_N (info_width img1 * info_height img1)) * 255)
    /\ 0 <= s <= 1.
Proof.
  intros Hpos Hl1 Hl2.
  set (pc := (info_width img1 * info_height img1)%N) in *.
  set (total := sum_abs_diff (data img1) (data img2)).
  exists (1 - inject_Z total / (inject_Z (Z.of_N pc) * 255)).
  assert (Hd : 0 < inject_Z (Z.of_N pc) * 255).
  { unfold Qlt, Qmult, inject_Z. cbn. lia. }
  assert (Hnz : ~ inject_Z (Z.of_N pc) * 255 == 0).
  { intro Z0. rewrite Z0 in Hd. discriminate Hd. }
  split; [|split; [reflexivity|]].
  - unfold similarity_of. fold pc.
    change (Num 0) with (Num (inject_Z 0)).
    rewrite difference_loop_sum by (rewrite ?Hl1, ?Hl2; reflexivity).
    cbn [skipn Z.add]. fold total. unfold number_div.
    destruct (Qeq_bool (inject_Z (Z.of_N pc) * 255) 0) eqn:E; [|reflexivity].
    apply Qeq_bool_iff in E. contradiction.
  - pose proof (sum_abs_diff_bounds (data img1) (data img2)) as Hb.
    fold total in Hb. rewrite Hl1, N_nat_Z in Hb.
    assert (H0 : 0 <= inject_Z total).
    { change 0 with (inject_Z 0). rewrite <- Zle_Qle. lia. }
    assert (H1 : inject_Z total <= inject_Z (Z.of_N pc) * 255).
    { change 255 with (inject_Z 255).
      rewrite <- inject_Z_mult, <- Zle_Qle. lia. }
    assert (Hq : 0 <= inject_Z total / (inject_Z (Z.of_N pc) * 255) <= 1).
    { split.
      - apply Qle_shift_div_l; [exact Hd|]. lra.
      - apply Qle_shift_div_r; [exact Hd|]. lra. }
    lra.
Qed.

Lemma toFixed_n_unit (s : Q) : 0 <= s <= 1 -> (0 <= toFixed_n s <= 10000)%Z.
Proof.
  intros [H0 H1]. split.
  - apply toFixed_n_nonneg. exact H0.
  - unfold toFixed_n.
    apply Z.le_trans with (Qfloor (1 * 10000 + (1 # 2))).
    + apply Qfloor_resp_le. lra.
    + vm_compute. discriminate.
Qed.

Section SignatureString.
Variable Number_toString : Q -> string.

(** For two well-sized images the string in the response is a decimal
    numeral: read back with [parseFloat] it is a number between 0 and 1
    within 0.00005 of the exact similarity. *)
Theorem similarity_string_reads_back (img1 img2 : rawImage) :
  info_width img1 = info_width img2 ->
  info_height img1 = info_height img2 ->
  (0 < info_width img1 * info_height img1)%N ->
  List.length (data img1) = N.to_nat (info_width img1 * info_height img1) ->
  List.length (data img2) = N.to_nat (info_width img1 * info_height img1) ->
  exists text q,
    compareRaw Number_toString img1 img2 = SigOk text
    /\ parseFloat_fixed text = Some q
    /\ 0 <= q <= 1
    /\ Qabs (q - (1 - inject_Z (sum_abs_diff (data img1) (data img2))
                      / (inject_Z (Z.of_N (info_width img1 * info_height img1))
                         * 255)))
       <= 1 # 20000.
Proof.
  intros Hw Hh Hpos Hl1 Hl2.
  destruct (similarity_of_well_sized img1 img2 Hpos Hl1 Hl2) as (s & Hs & Es & Hr).
  pose proof (toFixed_n_unit s Hr) as Hn.
  destruct (parse_fixed_digits (toFixed_n s) (proj1 Hn)) as (q & Hp & Hq & _).
  exists (fixed_digits (toFixed_n s)), q.
  split; [|split; [exact Hp|split]].
  - unfold compareRaw. rewrite Hw, Hh, !N.eqb_refl. cbn [negb orb].
    rewrite Hs. cbn [number_toFixed4].
    apply f_equal. apply toFixed4_unit_interval. exact Hr.
  - rewrite Hq, Qmake_10000. split.
    + apply Qle_shift_div_l; [reflexivity|].
      rewrite Qmult_0_l. change 0 with (inject_Z 0). rewrite <- Zle_Qle. lia.
    + apply Qle_shift_div_r; [reflexivity|].
      rewrite Qmult_1_l. change 10000 with (inject_Z 10000).
      rewrite <- Zle_Qle. lia.
  - rewrite <- Es, Hq. apply toFixed_n_close.
Qed.

End SignatureString.

(* ------------------------------------------------------------------ *)
(** ** Signature comparison: the failures of the handler *)

Section SignatureHandler.
Variable Number_toString : Q -> string.
Variable buffer : Type.
Variable sharpSignature : buffer -> result rawImage.


End SignatureHandler.

(* ------------------------------------------------------------------ *)
(** ** Face comparison: account data, order, thresholds and ranges *)

Lemma max0_ge (l : list Q) (x : Q) : In x l -> x <= max0 l.
Proof.
  induction l as [|y l IH]; intro Hin; [destruct Hin|].
  destruct Hin as [E|H]; cbn [max0 fold_right].
  - subst y. apply Q.le_max_l.
  - apply Qle_trans with (max0 l); [apply IH; exact H|apply Q.le_max_r].
Qed.

Lemma max0_attained (l : list Q) :
  max0 l == 0 \/ exists x, In x l /\ max0 l == x.
Proof.
  induction l as [|y l IH]; cbn [max0 fold_right]; [left; reflexivity|].
  fold (max0 l).
  destruct (Qlt_le_dec (max0 l) y) as [L|L].
  - right. exists y. split; [left; reflexivity|].
    apply Q.max_l. apply Qlt_le_weak. exact L.
  - pose proof (Q.max_r _ _ L) as M.
    destruct IH as [Z|(x & Hx & Ex)].
    + left. rewrite M. exact Z.
    + right. exists x. split; [right; exact Hx|]. rewrite M. exact Ex.
Qed.

Section FaceExtras.
Context {buffer image descriptor : Type}.
Variable cap : capabilities buffer image descriptor.

Lemma checkItems_complete (items : list value) :
  checkItems items = Ok tt <-> Forall complete items.
Proof.
  induction items as [|item rest IH]; cbn [checkItems].
  - split; [constructor|reflexivity].
  - split.
    + destruct (get item "photo") as [photo|e] eqn:P; cbn [bind]; [|discriminate].
      destruct (truthy photo) eqn:TP; cbn [negb]; [|discriminate].
      destruct (get item "signature") as [sig|e] eqn:S; cbn [bind]; [|discriminate].
      destruct (truthy sig) eqn:TS; cbn [negb]; [|discriminate].
      intro H. constructor; [|apply IH; exact H].
      exists photo, sig. repeat split; assumption.
    + intro H. inversion H as [|? ? (photo & sig & P & TP & S & TS) Hrest]; subst.
      rewrite P. cbn [bind]. rewrite TP. cbn [negb].
      rewrite S. cbn [bind]. rewrite TS. cbn [negb].
      apply IH. exact Hrest.
Qed.

Lemma approved_accepted (approved : value) :
  negb (truthy approved) || negb (isArray approved)
  || (List.length (elements approved) =? 0)%nat = false ->
  exists x xs, approved = VArr (x :: xs).
Proof.
  destruct approved as [| |bb|q|str|xs|fds];
    cbn [truthy isArray elements negb orb]; try discriminate.
  - rewrite orb_true_r. discriminate.
  - rewrite orb_true_r. discriminate.
  - rewrite orb_true_r. discriminate.
  - destruct xs as [|x xs]; [discriminate|]. intros _. exists x, xs. reflexivity.
Qed.

(** [fetchAccountData] returns a list exactly when the store answered
    with an object whose [approved] is a non-empty array of complete
    entries, and then it returns that array as it is. *)
Theorem fetchAccountData_returns (account : string) (items : list value) :
  fetchAccountData cap account = Ok items <->
  exists data,
    axios_request cap account = Ok data
    /\ get data "approved" = Ok (VArr items)
    /\ items <> []
    /\ Forall complete items.
Proof.
  unfold fetchAccountData. split.
  - destruct (axios_request cap account) as [data|e]; cbn [bind]; [|discriminate].
    destruct (get data "approved") as [approved|e] eqn:A; cbn [bind]; [|discriminate].
    destruct (negb (truthy approved) || negb (isArray approved)
              || (List.length (elements approved) =? 0)%nat) eqn:G; [discriminate|].
    destruct (approved_accepted approved G) as (x & xs & ->). cbn [elements].
    destruct (checkItems (x :: xs)) as [[]|e] eqn:C; cbn [bind]; [|discriminate].
    intro H. injection H as <-.
    exists data. split; [reflexivity|]. split; [exact A|].
    split; [discriminate|]. apply checkItems_complete. exact C.
  - intros (data & Hr & Ha & Hne & Hc).
    rewrite Hr. cbn [bind]. rewrite Ha. cbn [bind truthy isArray elements negb orb].
    destruct items as [|x xs]; [contradiction|]. cbn [List.length Nat.eqb].
    apply checkItems_complete in Hc. rewrite Hc. reflexivity.
Qed.

Lemma candidate_photo (item : value) (url : string) (od : option descriptor) :
  candidate cap item = Ok (url, od) -> get item "photo" = Ok (VStr url).
Proof.
  unfold candidate.
  destruct (get item "photo") as [photo|e]; cbn [bind]; [|discriminate].
  destruct photo; try discriminate.
  destruct (nth_error (split "," s) 1); [|discriminate].
  destruct (detectFace cap (Buffer_from_base64 cap s0)); cbn [bind]; [|discriminate].
  intro H. injection H as -> _. reflexivity.
Qed.

(** The returned [faces] follow the approved list: one Match Result per
    entry, in the same order, each with the entry's photo as its
    [faceUrl]. *)
Theorem faces_follow_approved_list (req : request buffer) (m : bool) (b : Q)
    (fs : list faceResult) (account : string) (items : list value) :
  compareFaces cap req = Outcome m b fs ->
  accountNumber req = Some account ->
  fetchAccountData cap account = Ok items ->
  Forall2 (fun item r => get item "photo" = Ok (VStr (faceUrl r))) items fs.
Proof.
  intros H Ha Hf.
  destruct (outcome_inversion cap _ _ _ _ H)
    as (account' & photo & items' & live & cs & Ha' & _ & _ & Hf' & _ & Hcs
        & _ & _ & Hfs).
  assert (account' = account) by congruence. subst account'.
  assert (items' = items) by congruence. subst items' fs.
  apply candidates_Forall2 in Hcs.
  clear -Hcs. induction Hcs as [|item c items cs Hc _ IH]; cbn [map].
  - constructor.
  - constructor; [|exact IH].
    destruct c as [url od]. apply candidate_photo in Hc.
    unfold matchResult. destruct od; exact Hc.
Qed.

Lemma matchResult_threshold (live : descriptor) (c : string * option descriptor) :
  (isMatch (matchResult cap live c) = true ->
   1 # 2 <= similarity (matchResult cap live c))
  /\ (1 # 2 < similarity (matchResult cap live c) ->
      isMatch (matchResult cap live c) = true).
Proof.
  unfold matchResult. destruct (snd c) as [d|]; cbn [isMatch similarity].
  - split.
    + intro H. apply Qltb_lt in H.
      apply (proj1 (similarity_threshold _) H).
    + intro H. apply Qltb_lt.
      destruct (Qlt_le_dec (euclideanDistance cap live d) (1 # 2)) as [L|L];
        [exact L|].
      exfalso. apply (Qlt_not_le _ _ H).
      apply (proj2 (similarity_threshold _) L).
  - split; [discriminate|]. intro H. discriminate H.
Qed.

(** The flags agree with the single threshold: a Match Result flagged as
    a match has similarity at least 0.5 and one with similarity above 0.5
    is flagged; likewise an outcome with isMatch true has bestSimilarity
    at least 0.5, and one with bestSimilarity above 0.5 has isMatch
    true. *)
Theorem flags_agree_with_threshold (req : request buffer) (m : bool) (b : Q)
    (fs : list faceResult) :
  compareFaces cap req = Outcome m b fs ->
  (m = true -> 1 # 2 <= b)
  /\ (1 # 2 < b -> m = true)
  /\ Forall (fun r => (isMatch r = true -> 1 # 2 <= similarity r)
                      /\ (1 # 2 < similarity r -> isMatch r = true)) fs.
Proof.
  intro H.
  destruct (outcome_inversion cap _ _ _ _ H)
    as (account & photo & items & live & cs & _ & _ & _ & _ & _ & _
        & Hm & Hb & Hfs).
  assert (Hall : Forall (fun r => (isMatch r = true -> 1 # 2 <= similarity r)
                                  /\ (1 # 2 < similarity r -> isMatch r = true))
                   fs).
  { subst fs. apply Forall_forall. intros r Hr.
    apply in_map_iff in Hr. destruct Hr as (c & <- & _).
    apply matchResult_threshold. }
  assert (Eb : b == max0 (map similarity fs)).
  { subst b fs. apply outcome_best. }
  assert (Em : m = existsb isMatch fs).
  { subst m fs. rewrite fold_record_matched. reflexivity. }
  split; [|split; [|exact Hall]].
  - intro Hmt. rewrite Em in Hmt. apply existsb_exists in Hmt.
    destruct Hmt as (r & Hr & Hrm).
    rewrite Forall_forall in Hall. destruct (Hall r Hr) as [Hge _].
    rewrite Eb. apply Qle_trans with (similarity r); [apply Hge; exact Hrm|].
    apply max0_ge. apply in_map. exact Hr.
  - intro Hbt. rewrite Em. apply existsb_exists.
    destruct (max0_attained (map similarity fs)) as [Z|(x & Hx & Ex)].
    + exfalso. rewrite Eb, Z in Hbt. discriminate Hbt.
    + apply in_map_iff in Hx. destruct Hx as (r & <- & Hr).
      exists r. split; [exact Hr|].
      rewrite Forall_forall in Hall. apply (Hall r Hr).
      rewrite <- Ex, <- Eb. exact Hbt.
Qed.

Lemma max0_le (l : list Q) (u : Q) :
  0 <= u -> Forall (fun x => x <= u) l -> max0 l <= u.
Proof.
  intros H0. induction 1 as [|x l Hx _ IH]; cbn [max0 fold_right]; [exact H0|].
  apply Q.max_lub; [exact Hx|exact IH].
Qed.

(** With a distance that is never negative (as a Euclidean distance is),
    no similarity in an outcome exceeds 1: every Match Result's similarity
    is at most 1 and bestSimilarity lies between 0 and 1. *)
Theorem similarities_at_most_one (req : request buffer) (m : bool) (b : Q)
    (fs : list faceResult) :
  (forall x y, 0 <= euclideanDistance cap x y) ->
  compareFaces cap req = Outcome m b fs ->
  0 <= b <= 1 /\ Forall (fun r => similarity r <= 1) fs.
Proof.
  intros Hdist H.
  destruct (outcome_inversion cap _ _ _ _ H)
    as (account & photo & items & live & cs & _ & _ & _ & _ & _ & _
        & _ & Hb & Hfs).
  assert (Hall : Forall (fun r => similarity r <= 1) fs).
  { subst fs. apply Forall_forall. intros r Hr.
    apply in_map_iff in Hr. destruct Hr as (c & <- & _).
    unfold matchResult. destruct (snd c) as [d|]; cbn [similarity].
    - apply similarity_at_most_one, Hdist.
    - discriminate. }
  assert (Eb : b == max0 (map similarity fs)).
  { subst b fs. apply outcome_best. }
  split; [|exact Hall]. rewrite Eb. split; [apply max0_nonneg|].
  apply max0_le; [discriminate|].
  apply Forall_forall. intros x Hx. apply in_map_iff in Hx.
  destruct Hx as (r & <- & Hr). rewrite Forall_forall in Hall. apply Hall, Hr.
Qed.

(** A stored photo whose descriptor is at distance 0 from the live one
    decides the outcome: its Match Result is a match with similarity 1,
    the overall isMatch is true and bestSimilarity is at least 1 (exactly
    1 when the distance is never negative). *)
Theorem zero_distance_matches (req : request buffer) (m : bool) (b : Q)
    (fs : list faceResult) (account : string) (photo : buffer)
    (items : list value) (live : descriptor) (i : nat) (item : value)
    (url : string) (d : descriptor) :
  compareFaces cap req = Outcome m b fs ->
  accountNumber req = Some account ->
  livePhoto req = Some photo ->
  fetchAccountData cap account = Ok items ->
  detectFace cap photo = Ok (Some live) ->
  nth_error items i = Some item ->
  candidate cap item = Ok (url, Some d) ->
  euclideanDistance cap live d == 0 ->
  nth_error fs i = Some {| faceUrl := url; isMatch := true; similarity := 1 |}
  /\ m = true
  /\ 1 <= b
  /\ ((forall x y, 0 <= euclideanDistance cap x y) -> b == 1).
Proof.
  intros H Ha Hp Hf Hd Hi Hc Hz.
  destruct (outcome_inversion cap _ _ _ _ H)
    as (account' & photo' & items' & live' & cs & Ha' & _ & Hp' & Hf' & Hd'
        & Hcs & Hm & Hb & Hfs).
  assert (account' = account) by congruence. subst account'.
  assert (photo' = photo) by congruence. subst photo'.
  assert (items' = items) by congruence. subst items'.
  assert (live' = live) by congruence. subst live'.
  destruct (candidates_nth cap items cs i item Hcs Hi) as (c & Hc' & Hn).
  assert (c = (url, Some d)) by congruence. subst c.
  assert (Er : matchResult cap live (url, Some d)
               = {| faceUrl := url; isMatch := true; similarity := 1 |}).
  { unfold matchResult. cbn [snd fst]. f_equal.
    - apply Qltb_lt. rewrite Hz. reflexivity.
    - apply similarity_at_zero, Hz. }
  assert (Hin : In {| faceUrl := url; isMatch := true; similarity := 1 |} fs).
  { subst fs. rewrite <- Er. apply in_map. apply (nth_error_In _ _ Hn). }
  assert (Eb : b == max0 (map similarity fs)).
  { subst b fs. apply outcome_best. }
  assert (Hge : 1 <= b).
  { rewrite Eb.
    apply (max0_ge (map similarity fs) 1).
    change 1 with (similarity {| faceUrl := url; isMatch := true; similarity := 1 |}).
    apply in_map. exact Hin. }
  split; [|split; [|split; [exact Hge|]]].
  - subst fs. rewrite nth_error_map, Hn. cbn [option_map]. rewrite Er. reflexivity.
  - subst m. rewrite fold_record_matched. cbn [initialState overallMatch orb].
    apply existsb_exists. rewrite <- Hfs.
    exists {| faceUrl := url; isMatch := true; similarity := 1 |}.
    split; [exact Hin|reflexivity].
  - intro Hdist. apply Qle_antisym; [|exact Hge].
    rewrite Eb. apply max0_le; [discriminate|].
    apply Forall_forall. intros x Hx. apply in_map_iff in Hx.
    destruct Hx as (r & <- & Hr). subst fs.
    apply in_map_iff in Hr. destruct Hr as (c & <- & _).
    unfold matchResult. destruct (snd c) as [d'|]; cbn [similarity].
    + apply similarity_at_most_one, Hdist.
    + discriminate.
Qed.

(** *** The stored photo's payload *)

Lemma split_nonempty (sep : ascii) (s : string) : split sep s <> [].
Proof.
  destruct s as [|c s]; cbn [split]; [discriminate|].
  destruct (split sep s); [discriminate|].
  destruct (Ascii.eqb c sep); discriminate.
Qed.

Lemma split_hasNo (sep : ascii) (s : string) :
  hasNo sep s -> split sep s = [s].
Proof.
  unfold hasNo. induction s as [|c s IH]; cbn [list_ascii_of_string split];
    intro H; [reflexivity|].
  rewrite IH by (intro Hin; apply H; right; exact Hin).
  destruct (Ascii.eqb c sep) eqn:E; [|reflexivity].
  apply Ascii.eqb_eq in E. exfalso. apply H. left. exact E.
Qed.

Lemma split_at_separator (sep : ascii) (a b : string) :
  hasNo sep a ->
  split sep (a ++ String sep b)%string = a :: split sep b.
Proof.
  unfold hasNo. induction a as [|c a IH]; cbn [list_ascii_of_string append split];
    intro H.
  - rewrite Ascii.eqb_refl.
    destruct (split sep b) eqn:E; [|reflexivity].
    exfalso. apply (split_nonempty sep b E).
  - rewrite IH by (intro Hin; apply H; right; exact Hin).
    destruct (Ascii.eqb c sep) eqn:E; [|reflexivity].
    apply Ascii.eqb_eq in E. exfalso. apply H. left. exact E.
Qed.

(** For a photo of the form [header,payload], with no comma in either
    part, the loop decodes the payload: the turn is the image pipeline on
    the decoded payload, and its result is recorded under the whole
    photo string. *)
Theorem payload_after_comma (live : descriptor) (item : value)
    (st : loopState) (header payload : string) :
  get item "photo" = Ok (VStr (header ++ String "," payload)%string) ->
  hasNo "," header ->
  hasNo "," payload ->
  processItem cap live item st
  = (storedDetection <- detectFace cap (Buffer_from_base64 cap payload) ;;
     Ok (record cap live st ((header ++ String "," payload)%string, storedDetection)))%js.
Proof.
  intros Hg Hh Hp. rewrite processItem_candidate. unfold candidate.
  rewrite Hg. cbn [bind].
  rewrite (split_at_separator "," header payload Hh), (split_hasNo "," payload Hp).
  cbn [nth_error].
  destruct (detectFace cap (Buffer_from_base64 cap payload)); reflexivity.
Qed.

(** A stored photo without a comma in it makes the whole request fail
    once the loop is reached: there is nothing after the comma to
    decode. *)
Theorem photo_without_comma_fails (req : request buffer) (account : string)
    (photo : buffer) (items : list value) (live : descriptor) :
  accountNumber req = Some account -> account <> EmptyString ->
  livePhoto req = Some photo ->
  fetchAccountData cap account = Ok items ->
  detectFace cap photo = Ok (Some live) ->
  Exists (fun item => exists s, get item "photo" = Ok (VStr s) /\ hasNo "," s)
    items ->
  exists e,
    compareFaces cap req = Failure 500 "Failed to compare faces" (Some e).
Proof.
  intros Ha Hne Hp Hf Hd Hex.
  assert (Hthrow : Exists (fun item => exists e, candidate cap item = Throw e) items).
  { apply Exists_exists in Hex. destruct Hex as (item & Hin & s & Hg & Hno).
    apply Exists_exists. exists item. split; [exact Hin|].
    exists TypeError. unfold candidate. rewrite Hg. cbn [bind].
    rewrite (split_hasNo "," s Hno). reflexivity. }
  destruct (candidates_Exists_throw cap items Hthrow) as [e He].
  exists e. rewrite (compareFaces_valid cap req account photo Ha Hne Hp).
  rewrite (body_candidate_throws cap account photo items live e Hf Hd He).
  reflexivity.
Qed.

(** *** The statuses of a failure *)

(** The handler throws outside its [try], and sends no response of its
    own, exactly when the request is not multipart; the error is a type
    error.  Otherwise it answers, and a failure it answers with is one of
    three responses: status 400 for a request without account number or
    live photo, status 400 for a live photo without a face, or status 500
    "Failed to compare faces" with the error that was caught. *)
Theorem failure_responses (req : httpRequest buffer) :
  (forall e, postCompareFaces cap req = Throw e
             <-> files req = None /\ e = TypeError)
  /\ forall status error details,
       postCompareFaces cap req = Ok (Failure status error details) ->
       (status = 400%Z
        /\ error = "accountNumber and livePhoto are required"%string
        /\ details = None
        /\ (body_accountNumber req = None
            \/ body_accountNumber req = Some EmptyString
            \/ files req = Some None))
       \/ (status = 400%Z
           /\ error = "No face detected in the live photo"%string
           /\ details = None
           /\ exists photo, files req = Some (Some photo)
                            /\ detectFace cap photo = Ok None)
       \/ (status = 500%Z /\ error = "Failed to compare faces"%string
           /\ exists e, details = Some e).
Proof.
  unfold postCompareFaces.
  destruct (files req) as [livePhoto_|] eqn:F.
  2:{ split; [|discriminate].
      intro e. split.
      - intro H. injection H as <-. split; reflexivity.
      - intros [_ ->]. reflexivity. }
  split.
  { intro e. split; [discriminate|]. intros [H _]. discriminate H. }
  intros status error details H. injection H as H. revert H.
  unfold compareFaces. cbn [accountNumber livePhoto].
  destruct (body_accountNumber req) as [account|] eqn:A.
  2:{ intro H. injection H as <- <- <-. left. repeat split; auto. }
  destruct livePhoto_ as [photo|].
  2:{ intro H. injection H as <- <- <-. left. repeat split; auto. }
  destruct (String.eqb account EmptyString) eqn:E.
  { apply String.eqb_eq in E. subst account.
    intro H. injection H as <- <- <-. left. repeat split; auto. }
  destruct (compareFacesBody cap account photo) as [r|e] eqn:B.
  2:{ intro H. injection H as <- <- <-. right. right.
      repeat split. exists e. reflexivity. }
  intros ->. right. left. revert B. unfold compareFacesBody.
  destruct (fetchAccountData cap account) as [items|e]; cbn [bind]; [|discriminate].
  destruct (detectFace cap photo) as [[live|]|e] eqn:D; cbn [bind];
    [|intro B|discriminate].
  - destruct (processItems cap live items initialState); cbn [bind]; discriminate.
  - unfold noLiveFace in B. injection B as <- <- <-.
    repeat split. exists photo. split; [reflexivity|exact D].
Qed.

End FaceExtras.

(* ------------------------------------------------------------------ *)
(** ** Prefixes, substrings and trimming *)

Local Open Scope string_scope.

Lemma prefix_app (p r : string) : prefix p (p ++ r) = true.
Proof.
  induction p as [|c p IH]; cbn [append prefix].
  - destruct r; reflexivity.
  - destruct (ascii_dec c c) as [_|N]; [exact IH|contradiction].
Qed.

Lemma prefix_split (p s : string) :
  prefix p s = true -> exists r, s = p ++ r.
Proof.
  revert s. induction p as [|c p IH]; intros s H.
  - exists s. reflexivity.
  - destruct s as [|d s]; cbn [prefix] in H; [discriminate|].
    destruct (ascii_dec c d) as [->|_]; [|discriminate].
    destruct (IH s H) as [r ->]. exists r. reflexivity.
Qed.

Lemma includes_iff (needle haystack : string) :
  includes needle haystack = true <->
  exists before after, haystack = before ++ needle ++ after.
Proof.
  split.
  - induction haystack as [|c h IH]; cbn [includes]; intro H.
    + rewrite orb_false_r in H. apply prefix_split in H. destruct H as [r ->].
      exists EmptyString, r. reflexivity.
    + apply orb_true_iff in H. destruct H as [H|H].
      * apply prefix_split in H. destruct H as [r ->].
        exists EmptyString, r. reflexivity.
      * destruct (IH H) as (before & after & ->).
        exists (String c before), after. reflexivity.
  - intros (before & after & ->).
    induction before as [|c before IH]; cbn [append].
    + destruct (needle ++ after) eqn:E; cbn [includes];
        rewrite <- E, prefix_app; reflexivity.
    + cbn [includes]. rewrite IH. apply orb_true_r.
Qed.

Lemma append_empty_r (s : string) : s ++ EmptyString = s.
Proof. induction s; cbn; congruence. Qed.

Lemma substring_all (s : string) : substring 0 (String.length s) s = s.
Proof. induction s; cbn; congruence. Qed.

Lemma substring_drop (p r : string) :
  substring (String.length p) (String.length (p ++ r) - String.length p) (p ++ r)
  = r.
Proof.
  rewrite append_length, Nat.add_comm, Nat.add_sub.
  induction p as [|c p IH]; cbn [append String.length substring].
  - apply substring_all.
  - exact IH.
Qed.

Lemma substring_take (a b : string) :
  substring 0 (String.length a) (a ++ b) = a.
Proof.
  induction a as [|c a IH]; cbn [append String.length substring].
  - destruct b; reflexivity.
  - rewrite IH. reflexivity.
Qed.

Lemma substring_skip (a b : string) (m : nat) :
  substring (String.length a) m (a ++ b) = substring 0 m b.
Proof.
  induction a as [|c a IH]; cbn [append String.length substring]; [reflexivity|].
  exact IH.
Qed.

Lemma endsWith_app (a suffix : string) : endsWith (a ++ suffix) suffix = true.
Proof.
  unfold endsWith. rewrite append_length.
  replace (String.length a + String.length suffix - String.length suffix)%nat
    with (String.length a) by lia.
  rewrite substring_skip, substring_all, String.eqb_refl.
  rewrite andb_true_r. apply Nat.leb_le. lia.
Qed.

Lemma trimStart_whitespace (w s : string) :
  allWhitespace w = true -> trimStart (w ++ s) = trimStart s.
Proof.
  induction w as [|c w IH]; cbn [allWhitespace append trimStart]; intro H;
    [reflexivity|].
  apply andb_true_iff in H. destruct H as [Hc Hw]. rewrite Hc. apply IH, Hw.
Qed.

Lemma trimEnd_only_whitespace (w : string) :
  allWhitespace w = true -> trimEnd w = EmptyString.
Proof.
  induction w as [|c w IH]; cbn [allWhitespace trimEnd]; intro H; [reflexivity|].
  apply andb_true_iff in H. destruct H as [Hc Hw]. rewrite (IH Hw), Hc.
  reflexivity.
Qed.

Lemma trimEnd_whitespace (s w : string) :
  allWhitespace w = true -> trimEnd (s ++ w) = trimEnd s.
Proof.
  intro H. induction s as [|c s IH]; cbn [append trimEnd].
  - apply trimEnd_only_whitespace, H.
  - rewrite IH. reflexivity.
Qed.

Lemma trimStart_length (s : string) :
  (String.length (trimStart s) <= String.length s)%nat.
Proof.
  induction s as [|c s IH]; cbn [trimStart String.length]; [lia|].
  destruct (isWhitespace c); cbn [String.length]; lia.
Qed.

Lemma trimEnd_length (s : string) :
  (String.length (trimEnd s) <= String.length s)%nat.
Proof.
  induction s as [|c s IH]; cbn [trimEnd String.length]; [lia|].
  destruct (trimEnd s); [destruct (isWhitespace c)|]; cbn [String.length] in *; lia.
Qed.

Lemma trimStart_fixed (s : string) :
  String.length (trimStart s) = String.length s -> trimStart s = s.
Proof.
  destruct s as [|c s]; cbn [trimStart String.length]; [reflexivity|].
  destruct (isWhitespace c); [|reflexivity].
  pose proof (trimStart_length s). lia.
Qed.

(** A string that [trim] leaves alone is left alone by both halves. *)
Lemma trim_fixed (s : string) :
  trim s = s -> trimStart s = s /\ trimEnd s = s.
Proof.
  unfold trim. intro H.
  assert (E : trimStart s = s).
  { apply trimStart_fixed.
    pose proof (trimStart_length s). pose proof (trimEnd_length (trimStart s)).
    rewrite H in *. lia. }
  rewrite E in H. split; [exact E|exact H].
Qed.

Lemma trimStart_keeps (s t : string) :
  s <> EmptyString -> trimStart s = s -> trimStart (s ++ t) = s ++ t.
Proof.
  destruct s as [|c s]; [contradiction|]. intros _.
  cbn [trimStart append]. destruct (isWhitespace c); [|reflexivity].
  intro H. pose proof (trimStart_length s).
  apply (f_equal String.length) in H. cbn [String.length] in H. lia.
Qed.

(** Trimming a trimmed text with whitespace around it gives the text. *)
Lemma trim_padded (w1 body w2 : string) :
  allWhitespace w1 = true -> allWhitespace w2 = true -> trim body = body ->
  trim (w1 ++ body ++ w2) = body.
Proof.
  intros H1 H2 Hb. destruct (trim_fixed body Hb) as [Hs He].
  unfold trim. rewrite (trimStart_whitespace w1 _ H1).
  destruct body as [|c body].
  - cbn [append]. rewrite <- (append_empty_r w2) at 1.
    rewrite (trimStart_whitespace w2 EmptyString H2). reflexivity.
  - rewrite trimStart_keeps by (try discriminate; exact Hs).
    rewrite (trimEnd_whitespace _ w2 H2). exact He.
Qed.

(* ------------------------------------------------------------------ *)
(** ** Middleware *)

(** The origin check lets a request through exactly when it has no
    origin, an empty one, or one that begins with [http://localhost],
    whatever follows; every other origin gets the CORS error. *)
Theorem corsOrigin_allows (origin : option string) :
  (corsOrigin origin = Ok true <->
   origin = None \/ origin = Some EmptyString
   \/ exists rest, origin = Some ("http://localhost" ++ rest))
  /\ (corsOrigin origin = Ok true
      \/ corsOrigin origin = Throw (JsError "Not allowed by CORS")).
Proof.
  unfold corsOrigin. destruct origin as [o|].
  2:{ split; [split; auto|left; reflexivity]. }
  destruct (String.eqb o EmptyString) eqn:E.
  { apply String.eqb_eq in E. subst o.
    split; [split; auto|left; reflexivity]. }
  apply String.eqb_neq in E.
  destruct (prefix "http://localhost" o) eqn:P.
  - split; [|left; reflexivity]. split; [|reflexivity].
    intros _. right. right. apply prefix_split in P. destruct P as [r ->].
    exists r. reflexivity.
  - split; [|right; reflexivity]. split; [discriminate|].
    intros [H|[H|[rest H]]]; try discriminate.
    + injection H as ->. contradiction.
    + assert (Ho : o = "http://localhost" ++ rest) by congruence.
      rewrite Ho, prefix_app in P. discriminate.
Qed.

(** The upload filter accepts a MIME type exactly when [jpeg], [jpg] or
    [png] occurs somewhere in it. *)
Theorem fileFilter_accepts (mimetype : string) :
  fileFilter mimetype = Ok true <->
  exists before word after,
    mimetype = before ++ word ++ after
    /\ (word = "jpeg" \/ word = "jpg" \/ word = "png").
Proof.
  unfold fileFilter. split.
  - destruct (includes "jpeg" mimetype) eqn:A; cbn [orb].
    { intros _. apply includes_iff in A. destruct A as (b & a & ->).
      exists b, "jpeg", a. auto. }
    destruct (includes "jpg" mimetype) eqn:B; cbn [orb].
    { intros _. apply includes_iff in B. destruct B as (b & a & ->).
      exists b, "jpg", a. auto. }
    destruct (includes "png" mimetype) eqn:C; [|discriminate].
    intros _. apply includes_iff in C. destruct C as (b & a & ->).
    exists b, "png", a. auto.
  - intros (before & word & after & -> & Hw).
    assert (I : includes word (before ++ word ++ after) = true).
    { apply includes_iff. exists before, after. reflexivity. }
    destruct Hw as [-> | [-> | ->]]; rewrite I; rewrite ?orb_true_r; reflexivity.
Qed.

(* ------------------------------------------------------------------ *)
(** ** Cheque extraction: the code fences *)

Lemma append_assoc_string (a b c : string) : (a ++ b) ++ c = a ++ b ++ c.
Proof. induction a; cbn; congruence. Qed.

Lemma trimEnd_prepend (a b : string) :
  b <> EmptyString -> trimEnd b = b -> trimEnd (a ++ b) = a ++ b.
Proof.
  intros Hne Hb. induction a as [|c a IH]; cbn [append trimEnd]; [exact Hb|].
  rewrite IH. destruct (a ++ b) eqn:E; [|reflexivity].
  exfalso. destruct a; cbn [append] in E; [contradiction|discriminate].
Qed.

Lemma stripFences_unwrap (w1 body w2 : string) :
  allWhitespace w1 = true -> allWhitespace w2 = true -> trim body = body ->
  stripFences ("```json" ++ w1 ++ body ++ w2 ++ "```") = body.
Proof.
  intros H1 H2 Hb. unfold stripFences.
  rewrite prefix_app.
  change 7%nat with (String.length "```json").
  rewrite substring_drop.
  replace (w1 ++ body ++ w2 ++ "```") with ((w1 ++ body ++ w2) ++ "```")
    by (rewrite !append_assoc_string; reflexivity).
  rewrite endsWith_app.
  rewrite append_length. change (String.length "```") with 3%nat.
  rewrite Nat.add_sub, substring_take.
  apply trim_padded; assumption.
Qed.

Lemma stripFences_unopened (w body : string) :
  w <> EmptyString -> allWhitespace w = true -> trim body = body ->
  stripFences (w ++ "```json" ++ body ++ "```") = "```json" ++ body.
Proof.
  intros Hne Hw Hb. unfold stripFences.
  assert (P : prefix "```json" (w ++ "```json" ++ body ++ "```") = false).
  { destruct w as [|c w]; [contradiction|].
    cbn [allWhitespace] in Hw. apply andb_true_iff in Hw. destruct Hw as [Hc _].
    cbn [append prefix].
    destruct (ascii_dec "`" c) as [<-|_]; [discriminate Hc|reflexivity]. }
  rewrite P.
  replace (w ++ "```json" ++ body ++ "```")
    with ((w ++ "```json" ++ body) ++ "```")
    by (rewrite !append_assoc_string; reflexivity).
  rewrite endsWith_app, append_length.
  change (String.length "```") with 3%nat.
  rewrite Nat.add_sub, substring_take.
  unfold trim. rewrite (trimStart_whitespace w _ Hw).
  change (trimStart ("```json" ++ body)) with ("```json" ++ body).
  destruct (trim_fixed body Hb) as [_ He].
  destruct body as [|c body]; [reflexivity|].
  apply trimEnd_prepend; [discriminate|exact He].
Qed.

Lemma trim_fenced (w body : string) :
  allWhitespace w = true ->
  trim (w ++ "```json" ++ body ++ "```") = "```json" ++ body ++ "```".
Proof.
  intro Hw. unfold trim. rewrite (trimStart_whitespace w _ Hw).
  change (trimStart ("```json" ++ body ++ "```"))
    with ("```json" ++ body ++ "```").
  replace ("```json" ++ body ++ "```") with (("```json" ++ body) ++ "```")
    by (rewrite !append_assoc_string; reflexivity).
  apply trimEnd_prepend; [discriminate|reflexivity].
Qed.

Section ChequeFacts.
Variable buffer : Type.
Variable JSON_parse : string -> option value.
Variable generateContent : buffer -> string -> result string.
Variable respond : buffer -> aiError + string.

(** An answer wrapped as [```json ... ```] is unwrapped before it is
    parsed: with whitespace [w1], [w2] inside the fences around a trimmed
    body, the handler parses the body, and when the body is not JSON the
    error carries the body as [rawResponse]. *)
Theorem fenced_answer_is_unwrapped (imageBuffer : buffer) (mimeType : string)
    (w1 body w2 : string) :
  allWhitespace w1 = true -> allWhitespace w2 = true -> trim body = body ->
  generateContent imageBuffer mimeType
  = Ok ("```json" ++ w1 ++ body ++ w2 ++ "```") ->
  uploadCheque buffer JSON_parse generateContent (Some (imageBuffer, mimeType))
  = match JSON_parse body with
    | Some parsedData => ChequeOk parsedData
    | None => ChequeError 500 "AI output not JSON" (Some body) None
    end.
Proof.
  intros H1 H2 Hb Hg. unfold uploadCheque. rewrite Hg.
  rewrite (stripFences_unwrap w1 body w2 H1 H2 Hb). reflexivity.
Qed.

(** Whitespace in front of the opening fence: the handler of
    [combined-server.js] then leaves the opening fence in the text it
    parses, while the handler of the local-model server, which trims
    first, parses the body. *)
Theorem whitespace_before_fence (imageBuffer : buffer) (mimeType : string)
    (w body : string) :
  w <> EmptyString -> allWhitespace w = true -> trim body = body ->
  generateContent imageBuffer mimeType = Ok (w ++ "```json" ++ body ++ "```") ->
  respond imageBuffer = inr (w ++ "```json" ++ body ++ "```") ->
  uploadCheque buffer JSON_parse generateContent (Some (imageBuffer, mimeType))
  = match JSON_parse ("```json" ++ body) with
    | Some parsedData => ChequeOk parsedData
    | None =>
        ChequeError 500 "AI output not JSON" (Some ("```json" ++ body)) None
    end
  /\ uploadChequeLocal buffer JSON_parse respond (Some (imageBuffer, mimeType))
     = match JSON_parse body with
       | Some parsedData => ChequeOk parsedData
       | None => ChequeError 500 "AI output not JSON" (Some body) None
       end.
Proof.
  intros Hne Hw Hb Hg Hr. split.
  - unfold uploadCheque. rewrite Hg.
    rewrite (stripFences_unopened w body Hne Hw Hb). reflexivity.
  - unfold uploadChequeLocal. rewrite Hr.
    rewrite (trim_fenced w body Hw).
    change ("```json" ++ body ++ "```")
      with ("```json" ++ EmptyString ++ body ++ EmptyString ++ "```").
    rewrite (stripFences_unwrap EmptyString body EmptyString eq_refl eq_refl Hb).
    reflexivity.
Qed.

Lemma local_model_error_503 (imageBuffer : buffer) (mimeType : string)
    (error : aiError) :
  respond imageBuffer = inl error ->
  (ai_statusCode error = Some 400%Z \/ ai_statusCode error = Some 500%Z
   \/ exists before after,
        ai_message error = Some (before ++ "vision" ++ after)) ->
  uploadChequeLocal buffer JSON_parse respond (Some (imageBuffer, mimeType))
  = ChequeError 503
      "Local AI server error (load a vision model like LLaVA in LM Studio for image processing)"
      None None.
Proof.
  intros Hr Hc. unfold uploadChequeLocal. rewrite Hr.
  assert (L : likelyNoVision error = true).
  { unfold likelyNoVision. destruct Hc as [E|[E|(before & after & E)]];
      rewrite E.
    - apply orb_true_r.
    - apply orb_true_r.
    - apply orb_true_iff. left. apply andb_true_iff. split.
      + apply negb_true_iff, String.eqb_neq.
        destruct before; discriminate.
      + apply includes_iff. exists before, after. reflexivity. }
  rewrite L. reflexivity.
Qed.

Lemma local_model_error_500 (imageBuffer : buffer) (mimeType : string)
    (error : aiError) :
  respond imageBuffer = inl error ->
  ai_statusCode error <> Some 400%Z ->
  ai_statusCode error <> Some 500%Z ->
  (forall before after, ai_message error <> Some (before ++ "vision" ++ after)) ->
  uploadChequeLocal buffer JSON_parse respond (Some (imageBuffer, mimeType))
  = ChequeError 500 "Failed to process image with local AI" None
      (ai_message error).
Proof.
  intros Hr H4 H5 Hm. unfold uploadChequeLocal. rewrite Hr.
  assert (L : likelyNoVision error = false).
  { unfold likelyNoVision. apply orb_false_iff. split.
    - destruct (ai_message error) as [msg|] eqn:M; [|reflexivity].
      apply andb_false_iff. right.
      destruct (includes "vision" msg) eqn:I; [|reflexivity].
      apply includes_iff in I. destruct I as (before & after & ->).
      exfalso. apply (Hm before after). reflexivity.
    - destruct (ai_statusCode error) as [code|]; [|reflexivity].
      apply orb_false_iff. split; apply Z.eqb_neq; congruence. }
  rewrite L. reflexivity.
Qed.

(** An error of the local model is answered with status 503 when its
    status code is 400 or 500, whatever its message, or when its message
    contains [vision]; every other error gets status 500 with the message
    as details. *)
Theorem local_model_error_status (imageBuffer : buffer) (mimeType : string)
    (error : aiError) :
  respond imageBuffer = inl error ->
  ((ai_statusCode error = Some 400%Z \/ ai_statusCode error = Some 500%Z
    \/ exists before after,
         ai_message error = Some (before ++ "vision" ++ after)) ->
   uploadChequeLocal buffer JSON_parse respond (Some (imageBuffer, mimeType))
   = ChequeError 503
       "Local AI server error (load a vision model like LLaVA in LM Studio for image processing)"
       None None)
  /\ (ai_statusCode error <> Some 400%Z ->
      ai_statusCode error <> Some 500%Z ->
      (forall before after,
         ai_message error <> Some (before ++ "vision" ++ after)) ->
      uploadChequeLocal buffer JSON_parse respond (Some (imageBuffer, mimeType))
      = ChequeError 500 "Failed to process image with local AI" None
          (ai_message error)).
Proof.
  intro Hr. split.
  - apply local_model_error_503. exact Hr.
  - apply local_model_error_500. exact Hr.
Qed.

End ChequeFacts.

(* ------------------------------------------------------------------ *)
(** ** Account lookup *)

Module AccountsFacts.
Import Accounts.

Lemma strings_In (urls : list (option string)) (u : string) :
  In u (strings urls) <-> In (Some u) urls.
Proof.
  induction urls as [|[v|] urls IH]; cbn [strings In].
  - reflexivity.
  - rewrite IH. split; intros [H|H]; auto; left; congruence.
  - rewrite IH. split; [auto|]. intros [H|H]; [discriminate|exact H].
Qed.

Lemma signatureUrls_In (rows : list row) (u : string) :
  In u (signatureUrls rows) <->
  u <> EmptyString /\ exists r, In r rows /\ signature_url r = Some u.
Proof.
  unfold signatureUrls. rewrite strings_In, filter_In, in_map_iff.
  unfold present. split.
  - intros [(r & Hr & Hin) Hp]. split.
    + apply negb_true_iff, String.eqb_neq in Hp. exact Hp.
    + exists r. auto.
  - intros [Hne (r & Hin & Hr)]. split.
    + exists r. auto.
    + apply negb_true_iff, String.eqb_neq. exact Hne.
Qed.

Lemma signatureQuery_In (selected : string -> bool)
    (accounts : list accountRecord) (signatureTable : list signatureRecord)
    (r : row) :
  In r (signatureQuery selected accounts signatureTable) <->
  exists a,
    In a accounts /\ selected (number a) = true
    /\ ((r = joined a None
         /\ forall s, In s signatureTable -> owner_id s <> account_id a)
        \/ exists s, In s signatureTable /\ owner_id s = account_id a
                     /\ r = joined a (Some (url s))).
Proof.
  unfold signatureQuery. rewrite in_flat_map. split.
  - intros (a & Ha & Hr). exists a. split; [exact Ha|].
    destruct (selected (number a)); [|destruct Hr]. split; [reflexivity|].
    destruct (filter (fun s => (owner_id s =? account_id a)%Z) signatureTable)
      as [|s0 rest] eqn:F.
    + left. destruct Hr as [<-|[]]. split; [reflexivity|].
      intros s Hs E.
      assert (Hin : In s (filter (fun s => (owner_id s =? account_id a)%Z)
                            signatureTable)).
      { apply filter_In. split; [exact Hs|]. apply Z.eqb_eq. exact E. }
      rewrite F in Hin. destruct Hin.
    + right. rewrite <- F in Hr. apply in_map_iff in Hr.
      destruct Hr as (s & <- & Hs). apply filter_In in Hs.
      destruct Hs as [Hs E]. apply Z.eqb_eq in E.
      exists s. auto.
  - intros (a & Ha & Hsel & Hcase). exists a. split; [exact Ha|].
    rewrite Hsel.
    destruct (filter (fun s => (owner_id s =? account_id a)%Z) signatureTable)
      as [|s0 rest] eqn:F.
    + destruct Hcase as [[-> _]|(s & Hs & E & _)]; [left; reflexivity|].
      exfalso.
      assert (Hin : In s (filter (fun s => (owner_id s =? account_id a)%Z)
                            signatureTable)).
      { apply filter_In. split; [exact Hs|]. apply Z.eqb_eq. exact E. }
      rewrite F in Hin. destruct Hin.
    + rewrite <- F. destruct Hcase as [[_ Hnone]|(s & Hs & E & ->)].
      * exfalso.
        assert (Hin : In s0 (filter (fun s => (owner_id s =? account_id a)%Z)
                               signatureTable))
          by (rewrite F; left; reflexivity).
        apply filter_In in Hin. destruct Hin as [Hs0 E0].
        apply Z.eqb_eq in E0. apply (Hnone s0 Hs0 E0).
      * apply in_map_iff. exists s. split; [reflexivity|].
        apply filter_In. split; [exact Hs|]. apply Z.eqb_eq. exact E.
Qed.

Lemma selected_has_row (selected : string -> bool)
    (accounts : list accountRecord) (signatureTable : list signatureRecord)
    (a : accountRecord) :
  In a accounts -> selected (number a) = true ->
  exists u, In (joined a u) (signatureQuery selected accounts signatureTable).
Proof.
  intros Ha Hsel.
  destruct (filter (fun s => (owner_id s =? account_id a)%Z) signatureTable)
    as [|s0 rest] eqn:F.
  - exists None. apply signatureQuery_In. exists a.
    split; [exact Ha|]. split; [exact Hsel|]. left. split; [reflexivity|].
    intros s Hs E.
    assert (Hin : In s (filter (fun s => (owner_id s =? account_id a)%Z)
                          signatureTable)).
    { apply filter_In. split; [exact Hs|]. apply Z.eqb_eq. exact E. }
    rewrite F in Hin. destruct Hin.
  - assert (Hin : In s0 (filter (fun s => (owner_id s =? account_id a)%Z)
                           signatureTable))
      by (rewrite F; left; reflexivity).
    apply filter_In in Hin. destruct Hin as [Hs E]. apply Z.eqb_eq in E.
    exists (Some (url s0)). apply signatureQuery_In. exists a.
    split; [exact Ha|]. split; [exact Hsel|]. right. exists s0. auto.
Qed.

Section RouteFacts.
Variable db_query : value -> result (list row).
Variable selected : string -> bool.
Variable accounts : list accountRecord.
Variable signatureTable : list signatureRecord.

(** With the rows the query gives on the tables, in any order, the route
    answers 404 "Account not found" exactly when the parameter selects no
    account; an account without signatures is still found. *)
Theorem not_found_iff_no_account (accountNumber : value) (rows : list row) :
  truthy accountNumber = true ->
  db_query accountNumber = Ok rows ->
  Permutation rows (signatureQuery selected accounts signatureTable) ->
  (signatureRoute db_query accountNumber = Error 404 "Account not found" <->
   forall a, In a accounts -> selected (number a) = false).
Proof.
  intros Ht Hq Hperm. unfold signatureRoute. rewrite Ht, Hq. cbn [negb].
  split.
  - destruct rows as [|first rest]; [|discriminate]. intros _ a Ha.
    destruct (selected (number a)) eqn:Hsel; [|reflexivity].
    destruct (selected_has_row selected accounts signatureTable a Ha Hsel)
      as [u Hu].
    apply Permutation_nil in Hperm. rewrite Hperm in Hu. destruct Hu.
  - intro Hnone. destruct rows as [|first rest]; [reflexivity|].
    exfalso.
    assert (Hin : In first (signatureQuery selected accounts signatureTable)).
    { apply (Permutation_in _ Hperm). left. reflexivity. }
    apply signatureQuery_In in Hin. destruct Hin as (a & Ha & Hsel & _).
    rewrite (Hnone a Ha) in Hsel. discriminate.
Qed.

Lemma rows_not_empty (accountNumber : value) (rows : list row)
    (a : accountRecord) :
  Permutation rows (signatureQuery selected accounts signatureTable) ->
  In a accounts -> selected (number a) = true ->
  rows <> [].
Proof.
  intros Hperm Ha Hsel ->.
  destruct (selected_has_row selected accounts signatureTable a Ha Hsel)
    as [u Hu].
  apply Permutation_nil in Hperm. rewrite Hperm in Hu. destruct Hu.
Qed.

Lemma rows_of_single_account (rows : list row) (a : accountRecord) :
  Permutation rows (signatureQuery selected accounts signatureTable) ->
  (forall a', In a' accounts -> selected (number a') = true -> a' = a) ->
  forall r,
    In r rows ->
    (r = joined a None
     /\ forall s, In s signatureTable -> owner_id s <> account_id a)
    \/ exists s, In s signatureTable /\ owner_id s = account_id a
                 /\ r = joined a (Some (url s)).
Proof.
  intros Hperm Huniq r Hr. apply (Permutation_in _ Hperm) in Hr.
  apply signatureQuery_In in Hr. destruct Hr as (a' & Ha' & Hsel' & Hcase).
  rewrite (Huniq a' Ha' Hsel') in Hcase. exact Hcase.
Qed.

(** When the parameter selects one account, the route answers with that
    account's columns, and the signatures it lists are exactly the
    non-empty URLs of the account's rows in the signature table. *)
Theorem found_account (accountNumber : value) (rows : list row)
    (a : accountRecord) :
  truthy accountNumber = true ->
  db_query accountNumber = Ok rows ->
  Permutation rows (signatureQuery selected accounts signatureTable) ->
  In a accounts -> selected (number a) = true ->
  (forall a', In a' accounts -> selected (number a') = true -> a' = a) ->
  exists found,
    signatureRoute db_query accountNumber = Found found
    /\ Accounts.accountNumber found = number a
    /\ accountHolder found = holder a
    /\ bankName found = bank a
    /\ branchName found = branch a
    /\ accountType found = kind a
    /\ requiredSignatures found = required a
    /\ (forall u,
          In u (signatures found) <->
          u <> EmptyString
          /\ exists s, In s signatureTable /\ owner_id s = account_id a
                       /\ url s = u).
Proof.
  intros Ht Hq Hperm Ha Hsel Huniq.
  pose proof (rows_of_single_account rows a Hperm Huniq) as Hrows.
  pose proof (rows_not_empty accountNumber rows a Hperm Ha Hsel) as Hne.
  unfold signatureRoute. rewrite Ht, Hq. cbn [negb].
  destruct rows as [|first rest] eqn:R; [contradiction|].
  rewrite <- R in *. eexists. split; [reflexivity|].
  assert (E0 : exists u0, first = joined a u0).
  { destruct (Hrows first) as [[-> _]|(s & _ & _ & ->)];
      [rewrite R; left; reflexivity| |]; eexists; reflexivity. }
  destruct E0 as [u0 E0].
  cbn [Accounts.accountNumber accountHolder bankName branchName accountType
       requiredSignatures signatures].
  rewrite E0. cbn [joined account_number account_holder bank_name branch_name
                   account_type required_signatures].
  repeat (split; [reflexivity|]).
  intro u. rewrite signatureUrls_In. split.
  - intros [Hnu (r & Hr & Hu)]. split; [exact Hnu|].
    destruct (Hrows r Hr) as [[-> _]|(s & Hs & Eo & ->)]; [discriminate Hu|].
    cbn [joined signature_url] in Hu. injection Hu as <-.
    exists s. auto.
  - intros [Hnu (s & Hs & Eo & Eu)]. split; [exact Hnu|].
    exists (joined a (Some (url s))). split; [|cbn; congruence].
    apply (Permutation_in _ (Permutation_sym Hperm)).
    apply signatureQuery_In. exists a. split; [exact Ha|].
    split; [exact Hsel|]. right. exists s. auto.
Qed.

Lemma signatureUrls_all_null (rows : list row) :
  (forall r, In r rows -> signature_url r = None) -> signatureUrls rows = [].
Proof.
  intro H. destruct (signatureUrls rows) as [|u us] eqn:E; [reflexivity|].
  exfalso.
  assert (Hin : In u (signatureUrls rows)) by (rewrite E; left; reflexivity).
  apply signatureUrls_In in Hin. destruct Hin as [_ (r & Hr & Hu)].
  rewrite (H r Hr) in Hu. discriminate.
Qed.

(** An account that has no row in the signature table is found all the
    same (the join is a LEFT JOIN): the answer carries its columns and an
    empty list of signatures. *)
Theorem account_without_signatures (accountNumber : value) (rows : list row)
    (a : accountRecord) :
  truthy accountNumber = true ->
  db_query accountNumber = Ok rows ->
  Permutation rows (signatureQuery selected accounts signatureTable) ->
  In a accounts -> selected (number a) = true ->
  (forall a', In a' accounts -> selected (number a') = true -> a' = a) ->
  (forall s, In s signatureTable -> owner_id s <> account_id a) ->
  signatureRoute db_query accountNumber
  = Found {| Accounts.accountNumber := number a;
             accountHolder := holder a;
             bankName := bank a;
             branchName := branch a;
             accountType := kind a;
             requiredSignatures := required a;
             signatures := [] |}.
Proof.
  intros Ht Hq Hperm Ha Hsel Huniq Hnone.
  pose proof (rows_of_single_account rows a Hperm Huniq) as Hrows.
  pose proof (rows_not_empty accountNumber rows a Hperm Ha Hsel) as Hne.
  assert (Hall : forall r, In r rows -> r = joined a None).
  { intros r Hr. destruct (Hrows r Hr) as [[-> _]|(s & Hs & Eo & _)];
      [reflexivity|]. exfalso. apply (Hnone s Hs Eo). }
  unfold signatureRoute. rewrite Ht, Hq. cbn [negb].
  destruct rows as [|first rest] eqn:R; [contradiction|].
  rewrite <- R in *.
  rewrite signatureUrls_all_null
    by (intros r Hr; rewrite (Hall r Hr); reflexivity).
  rewrite (Hall first) by (rewrite R; left; reflexivity).
  reflexivity.
Qed.

End RouteFacts.

End AccountsFacts.

(* ------------------------------------------------------------------ *)
(** ** The further theorems at sample inputs *)

Lemma short_buffer_gives_NaN_witness :
  info_width (smallImage x0a) = info_width shortImage
  /\ info_height (smallImage x0a) = info_height shortImage
  /\ (List.length (data shortImage) < 4)%nat
  /\ compareRaw (fun _ => EmptyString) (smallImage x0a) shortImage = SigOk "NaN".
Proof.
  split; [reflexivity|]. split; [reflexivity|].
  assert (H : (List.length (data shortImage) < 4)%nat) by (cbn; lia).
  split; [exact H|].
  exact (short_buffer_gives_NaN (fun _ => EmptyString) (smallImage x0a)
           shortImage eq_refl eq_refl (or_intror H)).
Defined.

Lemma empty_image_gives_NaN_witness :
  (info_width noImage * info_height noImage)%N = 0%N
  /\ compareRaw (fun _ => EmptyString) noImage noImage = SigOk "NaN".
Proof.
  split; [reflexivity|].
  exact (empty_image_gives_NaN (fun _ => EmptyString) noImage noImage
           eq_refl eq_refl eq_refl).
Defined.

Lemma similarity_string_reads_back_witness :
  (0 < info_width (smallImage x0a) * info_height (smallImage x0a))%N
  /\ exists text q,
       compareRaw (fun _ => EmptyString) (smallImage x0a) (smallImage x3c)
       = SigOk text
       /\ parseFloat_fixed text = Some q
       /\ 0 <= q <= 1.
Proof.
  split; [reflexivity|].
  destruct (similarity_string_reads_back (fun _ => EmptyString)
              (smallImage x0a) (smallImage x3c)
              eq_refl eq_refl eq_refl eq_refl eq_refl)
    as (text & q & Hr & Hp & Hq & _).
  exists text, q. split; [exact Hr|]. split; [exact Hp|exact Hq].
Defined.


Lemma faces_follow_approved_list_witness :
  fetchAccountData mixedWorld "0012345" = Ok [entry blankUrl; entry nearUrl]
  /\ Forall2 (fun item r => get item "photo" = Ok (VStr (faceUrl r)))
       [entry blankUrl; entry nearUrl]
       [ {| faceUrl := blankUrl; isMatch := false; similarity := 0 |};
         {| faceUrl := nearUrl; isMatch := true; similarity := 4 # 5 |} ].
Proof.
  split; [reflexivity|].
  exact (faces_follow_approved_list mixedWorld liveRequest true (4 # 5) _
           "0012345" [entry blankUrl; entry nearUrl] eq_refl eq_refl eq_refl).
Defined.

Lemma flags_agree_with_threshold_witness :
  compareFaces mixedWorld liveRequest
  = Outcome true (4 # 5)
      [ {| faceUrl := blankUrl; isMatch := false; similarity := 0 |};
        {| faceUrl := nearUrl; isMatch := true; similarity := 4 # 5 |} ]
  /\ (true = true -> 1 # 2 <= 4 # 5).
Proof.
  split; [vm_compute; reflexivity|].
  exact (proj1 (flags_agree_with_threshold mixedWorld liveRequest true (4 # 5) _
                  eq_refl)).
Defined.

Lemma similarities_at_most_one_witness :
  (forall x y, 0 <= euclideanDistance mixedWorld x y)
  /\ 0 <= 4 # 5 <= 1.
Proof.
  assert (H : forall x y, 0 <= euclideanDistance mixedWorld x y)
    by (intros x y; apply double_nonneg, Qabs_nonneg).
  split; [exact H|].
  exact (proj1 (similarities_at_most_one mixedWorld liveRequest true (4 # 5) _
                  H eq_refl)).
Defined.

Lemma zero_distance_matches_witness :
  candidate sameWorld (entry nearUrl) = Ok (nearUrl, Some 0)
  /\ euclideanDistance sameWorld 0 0 == 0
  /\ compareFaces sameWorld liveRequest
     = Outcome true 1
         [ {| faceUrl := blankUrl; isMatch := false; similarity := 0 |};
           {| faceUrl := nearUrl; isMatch := true; similarity := 1 |} ]
  /\ 1 <= 1.
Proof.
  split; [reflexivity|]. split; [reflexivity|].
  split; [vm_compute; reflexivity|].
  exact (proj1 (proj2 (proj2
           (zero_distance_matches sameWorld liveRequest true 1 _ "0012345" "live"
              [entry blankUrl; entry nearUrl] 0 1%nat (entry nearUrl) nearUrl 0
              eq_refl eq_refl eq_refl eq_refl eq_refl eq_refl eq_refl
              (Qeq_refl 0))))).
Defined.

Lemma payload_after_comma_witness :
  get (entry nearUrl) "photo"
  = Ok (VStr ("data:image/jpeg;base64" ++ String "," "near"))
  /\ processItem mixedWorld 0 (entry nearUrl) initialState
     = (storedDetection <- detectFace mixedWorld "near" ;;
        Ok (record mixedWorld 0 initialState (nearUrl, storedDetection)))%js.
Proof.
  split; [reflexivity|].
  assert (Hh : hasNo "," "data:image/jpeg;base64").
  { unfold hasNo. cbn. intuition discriminate. }
  assert (Hp : hasNo "," "near").
  { unfold hasNo. cbn. intuition discriminate. }
  exact (payload_after_comma mixedWorld 0 (entry nearUrl) initialState
           "data:image/jpeg;base64" "near" eq_refl Hh Hp).
Defined.

Lemma photo_without_comma_fails_witness :
  fetchAccountData plainWorld "0012345" = Ok [entry "near"]
  /\ detectFace plainWorld "live" = Ok (Some 0)
  /\ exists e,
       compareFaces plainWorld liveRequest
       = Failure 500 "Failed to compare faces" (Some e).
Proof.
  split; [reflexivity|]. split; [reflexivity|].
  assert (Hne : "0012345" <> EmptyString) by discriminate.
  assert (Hp : hasNo "," "near").
  { unfold hasNo. cbn. intuition discriminate. }
  apply (photo_without_comma_fails plainWorld liveRequest "0012345" "live"
           [entry "near"] 0 eq_refl Hne eq_refl eq_refl eq_refl).
  apply Exists_cons_hd. exists "near". split; [reflexivity|exact Hp].
Defined.

Lemma failure_responses_witness :
  postCompareFaces facelessWorld jsonRequest = Throw TypeError
  /\ postCompareFaces facelessWorld multipartRequest
     = Ok (Failure 400 "No face detected in the live photo" None)
  /\ exists photo,
       files multipartRequest = Some (Some photo)
       /\ detectFace facelessWorld photo = Ok None.
Proof.
  split.
  { apply (proj1 (failure_responses facelessWorld jsonRequest) TypeError).
    split; reflexivity. }
  split; [reflexivity|].
  destruct (proj2 (failure_responses facelessWorld multipartRequest) 400%Z
              "No face detected in the live photo" None eq_refl)
    as [(_ & E & _)|[(_ & _ & _ & H)|(E & _)]].
  - discriminate E.
  - exact H.
  - discriminate E.
Defined.

Lemma fenced_answer_is_unwrapped_witness :
  trim "{}" = "{}"
  /\ uploadCheque string parseEmptyObject (fun _ _ => Ok fencedAnswer)
       (Some ("bytes", "image/png"))
     = ChequeOk (VObj []).
Proof.
  split; [reflexivity|].
  exact (fenced_answer_is_unwrapped string parseEmptyObject
           (fun _ _ => Ok fencedAnswer) "bytes" "image/png" " " "{}" " "
           eq_refl eq_refl eq_refl eq_refl).
Defined.

Lemma whitespace_before_fence_witness :
  allWhitespace " " = true
  /\ uploadCheque string parseEmptyObject (fun _ _ => Ok indentedAnswer)
       (Some ("bytes", "image/png"))
     = ChequeError 500 "AI output not JSON" (Some "```json{}") None
  /\ uploadChequeLocal string parseEmptyObject (fun _ => inr indentedAnswer)
       (Some ("bytes", "image/png"))
     = ChequeOk (VObj []).
Proof.
  split; [reflexivity|].
  assert (Hne : " " <> EmptyString) by discriminate.
  exact (whitespace_before_fence string parseEmptyObject
           (fun _ _ => Ok indentedAnswer) (fun _ => inr indentedAnswer)
           "bytes" "image/png" " " "{}" Hne eq_refl eq_refl eq_refl eq_refl).
Defined.

Lemma local_model_error_status_witness :
  uploadChequeLocal string parseEmptyObject
    (fun _ => inl {| ai_message := None; ai_statusCode := Some 400%Z |})
    (Some ("bytes", "image/png"))
  = ChequeError 503
      "Local AI server error (load a vision model like LLaVA in LM Studio for image processing)"
      None None.
Proof.
  exact (proj1 (local_model_error_status string parseEmptyObject
                  (fun _ => inl {| ai_message := None;
                                   ai_statusCode := Some 400%Z |})
                  "bytes" "image/png" _ eq_refl)
           (or_introl eq_refl)).
Defined.

Lemma not_found_iff_no_account_witness :
  sampleQuery (VStr "000") = Ok []
  /\ Accounts.signatureRoute sampleQuery (VStr "000")
     = Accounts.Error 404 "Account not found".
Proof.
  split; [reflexivity|].
  apply (proj2 (AccountsFacts.not_found_iff_no_account sampleQuery
                  (String.eqb "000") sampleAccounts sampleSignatures
                  (VStr "000") [] eq_refl eq_refl (Permutation_refl _))).
  intros a [<-|[<-|[]]]; reflexivity.
Defined.

Lemma found_account_witness :
  sampleQuery (VStr "0600017567560")
  = Ok (Accounts.signatureQuery (String.eqb "0600017567560") sampleAccounts
          sampleSignatures)
  /\ exists found,
       Accounts.signatureRoute sampleQuery (VStr "0600017567560")
       = Accounts.Found found
       /\ Accounts.accountHolder found = "Union Systems Global Limited"
       /\ (In "usgl_sig2" (Accounts.signatures found) <->
           "usgl_sig2" <> EmptyString
           /\ exists s, In s sampleSignatures
                        /\ Accounts.owner_id s = 1%Z
                        /\ Accounts.url s = "usgl_sig2").
Proof.
  split; [reflexivity|].
  destruct (AccountsFacts.found_account sampleQuery
              (String.eqb "0600017567560") sampleAccounts sampleSignatures
              (VStr "0600017567560") _
              {| Accounts.account_id := 1; Accounts.number := "0600017567560";
                 Accounts.holder := "Union Systems Global Limited";
                 Accounts.bank := "Societe Generale Ghana";
                 Accounts.branch := "Kaneshie Market";
                 Accounts.kind := "business"; Accounts.required := 2 |}
              eq_refl eq_refl (Permutation_refl _)
              (or_introl eq_refl) eq_refl)
    as (found & Hr & _ & Hh & _ & _ & _ & _ & Hs).
  { intros a' [<-|[<-|[]]] E; [reflexivity|discriminate E]. }
  exists found. split; [exact Hr|]. split; [exact Hh|exact (Hs "usgl_sig2")].
Defined.

Lemma account_without_signatures_witness :
  sampleQuery (VStr "9040007857211")
  = Ok (Accounts.signatureQuery (String.eqb "9040007857211") sampleAccounts
          sampleSignatures)
  /\ Accounts.signatureRoute sampleQuery (VStr "9040007857211")
     = Accounts.Found
         {| Accounts.accountNumber := "9040007857211";
            Accounts.accountHolder := "Benjamin Anderson";
            Accounts.bankName := "Stanbic Bank";
            Accounts.branchName := "Ring Road Central";
            Accounts.accountType := "personal";
            Accounts.requiredSignatures := 1;
            Accounts.signatures := [] |}.
Proof.
  split; [reflexivity|].
  apply (AccountsFacts.account_without_signatures sampleQuery
           (String.eqb "9040007857211") sampleAccounts sampleSignatures
           (VStr "9040007857211") _
           {| Accounts.account_id := 2; Accounts.number := "9040007857211";
              Accounts.holder := "Benjamin Anderson";
              Accounts.bank := "Stanbic Bank";
              Accounts.branch := "Ring Road Central";
              Accounts.kind := "personal"; Accounts.required := 1 |}
           eq_refl eq_refl (Permutation_refl _)
           (or_intror (or_introl eq_refl)) eq_refl).
  - intros a' [<-|[<-|[]]] E; [discriminate E|reflexivity].
  - intros s [<-|[<-|[]]]; discriminate.
Defined.

